(** * Edit targeting and context assembly: a shallow embedding

    The development follows three source files of the repository:
    - [lib/conversation-memory.ts]: the bounded conversation log, the session
      summary and the rendered history digest;
    - [lib/context-selector.ts]: local-context construction, relative import
      resolution and the final prompt embedding of file bodies;
    - [app/api/generate-ai-code-stream/route.ts]: the request-start trimming
      of the message log.

    JavaScript strings are sequences of UTF-16 code units, and [length],
    [substring], [startsWith], ... all count code units.  They are modelled
    as [list N]; ASCII literals are written [lit "..."], the few non-ASCII
    characters of the source are spelled as their code units. *)

From Stdlib Require Import ZArith NArith QArith_base Lia String Ascii DecimalString.
From stdpp Require Import base decidable option list strings gmap.

Set Default Proof Using "Type".

(** ** JavaScript strings and arrays *)

Module Js.

Abbreviation str := (list N).

Definition lit (s : string) : str :=
  (λ a, N_of_ascii a) <$> list_ascii_of_string s.

Arguments lit : simpl never.

Definition slash : N := 47.
Definition dot : N := 46.

(** Truthiness of a string: the empty string is the only falsy one. *)
Definition truthy (s : str) : bool :=
  match s with [] => false | _ => true end.

Definition startsWith (s p : str) : bool :=
  bool_decide (take (length p) s = p).

Definition endsWith (s p : str) : bool :=
  bool_decide (length p ≤ length s ∧ drop (length s - length p) s = p).

(** [s.substring(0, e)]: a negative end is clamped to 0, one past the
    length to the length. *)
Definition substring0 (s : str) (e : Z) : str := take (Z.to_nat e) s.

(** [s.lastIndexOf(c)] for a one-unit needle, [-1] when absent. *)
Fixpoint lastIndexOf_from (i : Z) (c : N) (s : str) (found : Z) : Z :=
  match s with
  | [] => found
  | x :: s' => lastIndexOf_from (i + 1) c s' (if decide (x = c) then i else found)
  end.
Definition lastIndexOf (s : str) (c : N) : Z := lastIndexOf_from 0 c s (-1).

(** [s.split(c)] for a one-unit separator: always at least one piece. *)
Fixpoint split (c : N) (s : str) : list str :=
  match s with
  | [] => [[]]
  | x :: s' =>
      if decide (x = c) then [] :: split c s'
      else match split c s' with
           | [] => [[x]]
           | p :: ps => (x :: p) :: ps
           end
  end.

(** [a.join(sep)] *)
Fixpoint join (sep : str) (a : list str) : str :=
  match a with
  | [] => []
  | [x] => x
  | x :: a' => x ++ sep ++ join sep a'
  end.

(** [a.includes(x)] on an array of strings. *)
Definition includes (a : list str) (x : str) : bool := bool_decide (x ∈ a).

(** [s.includes(t)]: [t] occurs in [s] as a substring. *)
Fixpoint strIncludes (s t : str) : bool :=
  startsWith s t ||
  match s with
  | [] => false
  | _ :: s' => strIncludes s' t
  end.

(** [a.slice(-k)]: the last [k] elements (all of them when shorter). *)
Definition sliceLast {A} (k : nat) (a : list A) : list A :=
  drop (length a - k) a.

(** [a.pop()] used for its effect on the array. *)
Definition popped {A} (a : list A) : list A := take (length a - 1) a.

(** [a.pop()] used for its value. *)
Definition popValue {A} (a : list A) : option A := last a.

(** [s.replace(/\/+/g, '/')]: every run of slashes becomes one slash. *)
Fixpoint collapseSlashes (s : str) : str :=
  match s with
  | [] => []
  | c :: s' =>
      if decide (c = slash) then
        match s' with
        | c' :: _ => if decide (c' = slash) then collapseSlashes s'
                     else c :: collapseSlashes s'
        | [] => [c]
        end
      else c :: collapseSlashes s'
  end.

(** Template-literal rendering of an integer. *)
Definition ofZ (z : Z) : str := lit (NilEmpty.string_of_int (Z.to_int z)).
Definition ofNat (n : nat) : str := ofZ (Z.of_nat n).

End Js.

Import Js.

(** ** [lib/context-selector.ts]: import resolution *)

Definition possibleExtensions : list str :=
  [lit ".jsx"; lit ".tsx"; lit ".js"; lit ".ts"].

(** One step of the loop of [resolvePath]: [..] pops, [.] is skipped, any
    other segment is pushed. *)
Definition applySegment (parts : list str) (part : str) : list str :=
  if decide (part = lit "..") then popped parts
  else if decide (part ≠ lit ".") then parts ++ [part]
  else parts.

Definition resolvePath (base relative : str) : str :=
  let parts := filter (λ p, truthy p = true) (split slash base) in
  let relativeParts := filter (λ p, truthy p = true) (split slash relative) in
  lit "/" ++ join (lit "/") (foldl applySegment parts relativeParts).

(** The final loop: the first normalised candidate found in [allFiles]. *)
Fixpoint firstExisting (possiblePaths : list str) (allFiles : list str) : option str :=
  match possiblePaths with
  | [] => None
  | possiblePath :: rest =>
      let normalizedPath := collapseSlashes possiblePath in
      if includes allFiles normalizedPath then Some normalizedPath
      else firstExisting rest allFiles
  end.

Definition possiblePathsOf (fromFile importSource : str) : list str :=
  let fromDir := substring0 fromFile (lastIndexOf fromFile slash) in
  if endsWith importSource (lit "/") then
    let resolvedBasePath := resolvePath fromDir importSource in
    [resolvedBasePath ++ lit "/index.jsx"; resolvedBasePath ++ lit "/index.tsx";
     resolvedBasePath ++ lit "/index.js"; resolvedBasePath ++ lit "/index.ts"]
  else
    let resolvedPath := resolvePath fromDir importSource in
    if existsb (λ ext, endsWith importSource ext) possibleExtensions
    then [resolvedPath]
    else (λ ext, resolvedPath ++ ext) <$> possibleExtensions.

Definition resolveImportPath (fromFile importSource : str) (allFiles : list str)
  : option str :=
  if negb (startsWith importSource (lit ".")) then None
  else firstExisting (possiblePathsOf fromFile importSource) allFiles.

(** ** [lib/context-selector.ts]: the manifest *)

(** Modelled from the spec: the declarations of [@/types/file-manifest] are
    not among the sources.  The records carry the fields that
    [lib/context-selector.ts] reads, with the optional ones as [option];
    the two [Record<string, _>] tables are finite maps keyed by path and by
    component name (own properties only). *)
Record ImportInfo := {
  imp_source : str;
  imp_isLocal : bool;
}.

Record ComponentInfo := {
  ci_name : str;
  ci_childComponents : option (list str);
}.

Record FileInfo := {
  fi_content : str;
  fi_type : str;
  fi_imports : option (list ImportInfo);
  fi_componentInfo : option ComponentInfo;
}.

Record ComponentTreeNode := {
  tn_file : str;
  tn_imports : list str;
  tn_importedBy : list str;
}.

Record Route := {
  rt_path : str;
  rt_component : str;
}.

Record FileManifest := {
  files : gmap (list N) FileInfo;
  componentTree : gmap (list N) ComponentTreeNode;
  entryPoint : str;
  routes : list Route;
}.

(** ** [lib/context-selector.ts]: [buildLocalContext] *)

(** [Set.prototype.add] on a [Set<string>], kept as the list of its elements
    in insertion order ([Array.from] then reads it off unchanged). *)
Definition setAdd (s : list str) (x : str) : list str :=
  if includes s x then s else s ++ [x].

(** [allFiles.find(f => f.endsWith(e1) || f.endsWith(e2))] followed by the
    guarded [essentialFiles.push]. *)
Definition essentialCandidate (allFiles primaryFiles : list str) (e1 e2 : str)
  : list str :=
  match List.find (λ f, endsWith f e1 || endsWith f e2) allFiles with
  | Some f => if truthy f && negb (includes primaryFiles f) then [f] else []
  | None => []
  end.

Definition essentialFilesOf (allFiles primaryFiles : list str) : list str :=
  essentialCandidate allFiles primaryFiles (lit "App.jsx") (lit "App.tsx")
  ++ essentialCandidate allFiles primaryFiles
       (lit "tailwind.config.js") (lit "tailwind.config.ts")
  ++ essentialCandidate allFiles primaryFiles (lit "index.css") (lit "globals.css").

(** Body of the loop over [fileInfo.imports]. *)
Definition addImport (primaryFiles allFiles : list str) (primaryFile : str)
    (contextFiles : list str) (importInfo : ImportInfo) : list str :=
  if imp_isLocal importInfo && truthy (imp_source importInfo) then
    match resolveImportPath primaryFile (imp_source importInfo) allFiles with
    | Some resolvedPath =>
        if truthy resolvedPath && negb (includes primaryFiles resolvedPath)
        then setAdd contextFiles resolvedPath
        else contextFiles
    | None => contextFiles
    end
  else contextFiles.

(** Body of the two loops over [treeNode.importedBy] and [treeNode.imports]. *)
Definition addComponent (manifest : FileManifest) (primaryFiles : list str)
    (contextFiles : list str) (componentName : str) : list str :=
  match componentTree manifest !! componentName with
  | Some node =>
      if negb (includes primaryFiles (tn_file node))
      then setAdd contextFiles (tn_file node)
      else contextFiles
  | None => contextFiles
  end.

(** Body of the loop over [primaryFiles]. *)
Definition addLocalContext (manifest : FileManifest) (primaryFiles allFiles : list str)
    (contextFiles : list str) (primaryFile : str) : list str :=
  match files manifest !! primaryFile with
  | None => contextFiles
  | Some fileInfo =>
      let contextFiles1 :=
        match fi_imports fileInfo with
        | Some imports =>
            foldl (addImport primaryFiles allFiles primaryFile) contextFiles imports
        | None => contextFiles
        end in
      match fi_componentInfo fileInfo with
      | Some componentInfo =>
          match componentTree manifest !! ci_name componentInfo with
          | Some treeNode =>
              let contextFiles2 :=
                foldl (addComponent manifest primaryFiles) contextFiles1
                      (tn_importedBy treeNode) in
              foldl (addComponent manifest primaryFiles) contextFiles2
                    (tn_imports treeNode)
          | None => contextFiles1
          end
      | None => contextFiles1
      end
  end.

Definition contextSetOf (primaryFiles : list str) (manifest : FileManifest)
    (allFiles : list str) : list str :=
  foldl (addLocalContext manifest primaryFiles allFiles)
        (foldl setAdd [] (essentialFilesOf allFiles primaryFiles))
        primaryFiles.

Definition buildLocalContext (primaryFiles : list str) (manifest : FileManifest)
    (allFiles : list str) : list str :=
  let essentialFiles := essentialFilesOf allFiles primaryFiles in
  let contextFiles := contextSetOf primaryFiles manifest allFiles in
  essentialFiles
  ++ filter (λ f, includes essentialFiles f = false) contextFiles.

(** ** [lib/context-selector.ts]: file bodies for the prompt *)

(** The entries of a [Record<string, string>] argument, in the order in
    which [Object.entries] gives them. *)
Abbreviation Contents := (list (list N * list N)).

Definition extensionMapping (ext : str) : option str :=
  if decide (ext = lit "js") then Some (lit "javascript")
  else if decide (ext = lit "jsx") then Some (lit "javascript")
  else if decide (ext = lit "ts") then Some (lit "typescript")
  else if decide (ext = lit "tsx") then Some (lit "typescript")
  else if decide (ext = lit "css") then Some (lit "css")
  else if decide (ext = lit "json") then Some (lit "json")
  else None.

Definition getFileExtension (path : str) : str :=
  let ext := match popValue (split dot path) with
             | Some e => if truthy e then e else []
             | None => []
             end in
  match extensionMapping ext with
  | Some m => if truthy m then m else ext
  | None => ext
  end.

Definition nl : str := [10%N].
Definition dq : str := [34%N].

Definition contextBodyLimit : nat := 2000.
Definition contextTruncationMarker : str :=
  nl ++ lit "// ... [truncated for context length]".

(** The body shown for a context file. *)
Definition truncatedContent (content : str) : str :=
  if decide (contextBodyLimit < length content)
  then take contextBodyLimit content ++ contextTruncationMarker
  else content.









(** ** [types/conversation.ts]: the conversation state *)

Inductive Role := user | assistant.

Inductive FileAction := created | modified | deleted.

Inductive EditStyle := targeted | comprehensive.

Inductive Outcome := success | partial | failed.

#[global] Instance Role_eq_dec : EqDecision Role.
Proof. solve_decision. Defined.

#[global] Instance FileAction_eq_dec : EqDecision FileAction.
Proof. solve_decision. Defined.

Record AppliedFile := {
  af_path : str;
  af_action : FileAction;
  af_size : Z;
  af_componentName : option str;
}.

Record MessageMetadata := {
  md_editedFiles : option (list str);
  md_addedPackages : option (list str);
  md_editType : option str;
  md_sandboxId : option str;
  md_generatedCode : option str;
  md_appliedFiles : option (list AppliedFile);
  md_actionSummary : option str;
  md_fileCount : option Z;
  md_componentCount : option Z;
}.

Record ConversationMessage := {
  msg_id : str;
  msg_role : Role;
  msg_content : str;
  msg_timestamp : Z;
  msg_metadata : option MessageMetadata;
}.

Record ConversationEdit := {
  ed_timestamp : Z;
  ed_userRequest : str;
  ed_editType : str;
  ed_targetFiles : list str;
  ed_confidence : Q;
  ed_outcome : Outcome;
  ed_errorMessage : option str;
}.

Record MajorChange := {
  mc_timestamp : Z;
  mc_description : str;
  mc_filesAffected : list str;
}.

Record ProjectEvolution := {
  initialState : option str;
  majorChanges : list MajorChange;
}.

Record UserPreferences := {
  editStyle : option EditStyle;
  commonRequests : option (list str);
  packagePreferences : option (list str);
}.

Record SessionSummary := {
  totalInteractions : Z;
  filesCreated : list str;
  filesModified : list str;
  packagesAdded : list str;
  componentsCreated : list str;
  lastActionSummary : option str;
  sessionGoals : option (list str);
}.

(** [sessionSummary] is declared mandatory, but [updateSessionSummary] and
    the digest both test it for absence, so it is optional here. *)
Record ConversationContext := {
  messages : list ConversationMessage;
  edits : list ConversationEdit;
  currentTopic : option str;
  projectEvolution : ProjectEvolution;
  userPreferences : UserPreferences;
  sessionSummary : option SessionSummary;
}.

Record ConversationState := {
  conversationId : str;
  startedAt : Z;
  lastUpdated : Z;
  context : ConversationContext;
}.

(** The optional third argument of [updateConversationMemory]. *)
Record AiResponse := {
  ar_generatedCode : option str;
  ar_appliedFiles : option (list AppliedFile);
  ar_actionSummary : option str;
  ar_fileCount : option Z;
  ar_componentCount : option Z;
  ar_packagesToInstall : option (list str);
}.

(** [x || d] for an optional string: absent and empty both give [d]. *)
Definition orElse (x : option str) (d : str) : str :=
  match x with
  | Some s => if truthy s then s else d
  | None => d
  end.

(** ** [lib/conversation-memory.ts]: updating the memory *)

Definition emptySummary : SessionSummary :=
  {| totalInteractions := 0; filesCreated := []; filesModified := [];
     packagesAdded := []; componentsCreated := [];
     lastActionSummary := None; sessionGoals := None |}.

Definition withFilesCreated (s : SessionSummary) (l : list str) : SessionSummary :=
  {| totalInteractions := totalInteractions s; filesCreated := l;
     filesModified := filesModified s; packagesAdded := packagesAdded s;
     componentsCreated := componentsCreated s;
     lastActionSummary := lastActionSummary s; sessionGoals := sessionGoals s |}.

Definition withFilesModified (s : SessionSummary) (l : list str) : SessionSummary :=
  {| totalInteractions := totalInteractions s; filesCreated := filesCreated s;
     filesModified := l; packagesAdded := packagesAdded s;
     componentsCreated := componentsCreated s;
     lastActionSummary := lastActionSummary s; sessionGoals := sessionGoals s |}.

Definition withPackagesAdded (s : SessionSummary) (l : list str) : SessionSummary :=
  {| totalInteractions := totalInteractions s; filesCreated := filesCreated s;
     filesModified := filesModified s; packagesAdded := l;
     componentsCreated := componentsCreated s;
     lastActionSummary := lastActionSummary s; sessionGoals := sessionGoals s |}.

Definition withComponentsCreated (s : SessionSummary) (l : list str) : SessionSummary :=
  {| totalInteractions := totalInteractions s; filesCreated := filesCreated s;
     filesModified := filesModified s; packagesAdded := packagesAdded s;
     componentsCreated := l;
     lastActionSummary := lastActionSummary s; sessionGoals := sessionGoals s |}.

(** [summary.totalInteractions++; summary.lastActionSummary = ...] *)
Definition countInteraction (s : SessionSummary) (actionSummary : option str)
  : SessionSummary :=
  {| totalInteractions := totalInteractions s + 1; filesCreated := filesCreated s;
     filesModified := filesModified s; packagesAdded := packagesAdded s;
     componentsCreated := componentsCreated s;
     lastActionSummary := actionSummary; sessionGoals := sessionGoals s |}.

(** Body of [aiResponse.appliedFiles.forEach]. *)
Definition recordAppliedFile (summary : SessionSummary) (file : AppliedFile)
  : SessionSummary :=
  let fileName := af_path file in
  if bool_decide (af_action file = created)
     && negb (includes (filesCreated summary) fileName) then
    let summary1 := withFilesCreated summary (filesCreated summary ++ [fileName]) in
    match af_componentName file with
    | Some componentName =>
        if truthy componentName
           && negb (includes (componentsCreated summary1) componentName)
        then withComponentsCreated summary1
               (componentsCreated summary1 ++ [componentName])
        else summary1
    | None => summary1
    end
  else if bool_decide (af_action file = modified)
          && negb (includes (filesModified summary) fileName) then
    withFilesModified summary (filesModified summary ++ [fileName])
  else summary.

(** Body of [aiResponse.packagesToInstall.forEach]. *)
Definition recordPackage (summary : SessionSummary) (pkg : str) : SessionSummary :=
  if negb (includes (packagesAdded summary) pkg)
  then withPackagesAdded summary (packagesAdded summary ++ [pkg])
  else summary.

(** [updateSessionSummary], as a function on the optional summary. *)
Definition updateSessionSummary (current : option SessionSummary)
    (aiResponse : AiResponse) : SessionSummary :=
  let summary0 := match current with Some s => s | None => emptySummary end in
  let summary1 := countInteraction summary0 (ar_actionSummary aiResponse) in
  let summary2 :=
    match ar_appliedFiles aiResponse with
    | Some appliedFiles => foldl recordAppliedFile summary1 appliedFiles
    | None => summary1
    end in
  match ar_packagesToInstall aiResponse with
  | Some pkgs => foldl recordPackage summary2 pkgs
  | None => summary2
  end.

Definition withMessages (c : ConversationContext) (l : list ConversationMessage)
  : ConversationContext :=
  {| messages := l; edits := edits c; currentTopic := currentTopic c;
     projectEvolution := projectEvolution c;
     userPreferences := userPreferences c; sessionSummary := sessionSummary c |}.

Definition withSessionSummary (c : ConversationContext) (s : SessionSummary)
  : ConversationContext :=
  {| messages := messages c; edits := edits c; currentTopic := currentTopic c;
     projectEvolution := projectEvolution c;
     userPreferences := userPreferences c; sessionSummary := Some s |}.

Definition withContext (cs : ConversationState) (c : ConversationContext)
  : ConversationState :=
  {| conversationId := conversationId cs; startedAt := startedAt cs;
     lastUpdated := lastUpdated cs; context := c |}.

Definition withLastUpdated (cs : ConversationState) (t : Z) : ConversationState :=
  {| conversationId := conversationId cs; startedAt := startedAt cs;
     lastUpdated := t; context := context cs |}.

(** The assistant message synthesised from an AI response. *)
Definition aiMessageOf (now : Z) (aiResponse : AiResponse) : ConversationMessage :=
  {| msg_id := lit "ai-" ++ ofZ now;
     msg_role := assistant;
     msg_content := orElse (ar_actionSummary aiResponse) (lit "Generated code response");
     msg_timestamp := now;
     msg_metadata := Some
       {| md_editedFiles := None;
          md_addedPackages := ar_packagesToInstall aiResponse;
          md_editType := None;
          md_sandboxId := None;
          md_generatedCode := ar_generatedCode aiResponse;
          md_appliedFiles := ar_appliedFiles aiResponse;
          md_actionSummary := ar_actionSummary aiResponse;
          md_fileCount := ar_fileCount aiResponse;
          md_componentCount := ar_componentCount aiResponse |} |}.

(** [updateConversationMemory] mutates the state it is given; here it returns
    the state after the call.  [now] is the reading of [Date.now()], taken
    once for the whole call. *)
Definition updateConversationMemory (now : Z) (conversationState : ConversationState)
    (userMessage : ConversationMessage) (aiResponse : option AiResponse)
  : ConversationState :=
  (* Add user message *)
  let context1 :=
    withMessages (context conversationState)
                 (messages (context conversationState) ++ [userMessage]) in
  (* Create AI message if response provided *)
  let context2 :=
    match aiResponse with
    | Some response =>
        let pushed := withMessages context1
                        (messages context1 ++ [aiMessageOf now response]) in
        withSessionSummary pushed
          (updateSessionSummary (sessionSummary pushed) response)
    | None => context1
    end in
  (* Clean up old messages to prevent unbounded growth *)
  let context3 :=
    if decide (20 < length (messages context2))
    then withMessages context2 (sliceLast 15 (messages context2))
    else context2 in
  withLastUpdated (withContext conversationState context3) now.

(** ** [generate-ai-code-stream/route.ts]: the state at request start *)

Definition freshConversationState (now : Z) : ConversationState :=
  {| conversationId := lit "conv-" ++ ofZ now;
     startedAt := now;
     lastUpdated := now;
     context :=
       {| messages := []; edits := [];
          currentTopic := None;
          projectEvolution := {| initialState := None; majorChanges := [] |};
          userPreferences := {| editStyle := None; commonRequests := None;
                                packagePreferences := None |};
          sessionSummary := Some emptySummary |} |}.

(** The trimming [POST] applies to [global.conversationState] before it
    handles the request. *)
Definition trimAtRequestStart (conversationState : ConversationState)
  : ConversationState :=
  if decide (20 < length (messages (context conversationState)))
  then withContext conversationState
         (withMessages (context conversationState)
            (sliceLast 15 (messages (context conversationState))))
  else conversationState.

(** A call of [updateConversationMemory] as data, for runs of calls. *)
Record MemoryCall := {
  call_now : Z;
  call_userMessage : ConversationMessage;
  call_aiResponse : option AiResponse;
}.

Definition applyCall (cs : ConversationState) (c : MemoryCall) : ConversationState :=
  updateConversationMemory (call_now c) cs (call_userMessage c) (call_aiResponse c).

Definition applyCalls (cs : ConversationState) (cl : list MemoryCall)
  : ConversationState :=
  foldl applyCall cs cl.

(** What a call of the digest or of a reader sees as the running total. *)
Definition totalOf (cs : ConversationState) : Z :=
  match sessionSummary (context cs) with
  | Some s => totalInteractions s
  | None => 0
  end.

Definition summaryOf (cs : ConversationState) : SessionSummary :=
  match sessionSummary (context cs) with
  | Some s => s
  | None => emptySummary
  end.

(** ** [lib/conversation-memory.ts]: recent interactions *)

Record Interaction := {
  userMessage : ConversationMessage;
  aiMessage : option ConversationMessage;
}.

(** The backward [for] loop of [getRecentInteractions]: [pending] lists
    [messages[i]], [messages[i-1]], ..., [messages[0]]; the loop stops as
    soon as [interactions] holds [maxCount] entries. *)
Fixpoint scanBackward (maxCount : nat) (pending : list ConversationMessage)
    (interactions : list Interaction) (userMsg : option ConversationMessage)
  : list Interaction * option ConversationMessage :=
  match pending with
  | [] => (interactions, userMsg)
  | message :: earlier =>
      if decide (length interactions < maxCount) then
        match msg_role message with
        | user =>
            let interactions1 :=
              match userMsg with
              | Some u => {| userMessage := u; aiMessage := None |} :: interactions
              | None => interactions
              end in
            scanBackward maxCount earlier interactions1 (Some message)
        | assistant =>
            match userMsg with
            | Some u =>
                scanBackward maxCount earlier
                  ({| userMessage := u; aiMessage := Some message |} :: interactions)
                  None
            | None => scanBackward maxCount earlier interactions userMsg
            end
        end
      else (interactions, userMsg)
  end.

Definition getRecentInteractions (msgs : list ConversationMessage) (maxCount : nat)
  : list Interaction :=
  let '(interactions, userMsg) := scanBackward maxCount (reverse msgs) [] None in
  let interactions1 :=
    match userMsg with
    | Some u =>
        if decide (length interactions < maxCount)
        then {| userMessage := u; aiMessage := None |} :: interactions
        else interactions
    | None => interactions
    end in
  take maxCount interactions1.

(** ** [lib/conversation-memory.ts]: the history digest *)

(** What the digest takes from the JavaScript host: the locale rendering of
    a time, [String.prototype.toLowerCase], and the regular-expression
    engine applied to the two fixed patterns of [analyzeUserPreferences]
    ([matchesTargeted]: the targeted-verb pattern finds a match;
    [matchesComprehensive]: the comprehensive-verb pattern does). *)
Record Host := {
  toLocaleTimeString : Z → str;
  toLowerCase : str → str;
  matchesTargeted : str → bool;
  matchesComprehensive : str → bool;
}.

Definition getTimeAgo (now timestamp : Z) : str :=
  let diff := (now - timestamp)%Z in
  let minutes := (diff / (1000 * 60))%Z in
  if (minutes <? 1)%Z then lit "just now"
  else if (minutes <? 60)%Z then ofZ minutes ++ lit "m ago"
  else
    let hours := (minutes / 60)%Z in
    if (hours <? 24)%Z then ofZ hours ++ lit "h ago"
    else
      let days := (hours / 24)%Z in
      ofZ days ++ lit "d ago".

Definition truncateText (text : str) (maxLength : nat) : str :=
  if decide (length text ≤ maxLength) then text
  else take (maxLength - 3) text ++ lit "...".

(** A number used as a condition: zero is falsy. *)
Definition truthyNum (n : option Z) : bool :=
  match n with
  | Some z => negb (z =? 0)%Z
  | None => false
  end.

Definition generateActionSummary (aiMsg : ConversationMessage) : str :=
  match msg_metadata aiMsg with
  | None => lit "Generated response"
  | Some metadata =>
      let parts1 :=
        match md_fileCount metadata with
        | Some n =>
            if truthyNum (Some n) then
              if (n =? 1)%Z then [lit "Modified 1 file"]
              else [lit "Modified " ++ ofZ n ++ lit " files"]
            else []
        | None => []
        end in
      let parts2 :=
        match md_componentCount metadata with
        | Some n =>
            if truthyNum (Some n) then
              if (n =? 1)%Z then [lit "created 1 component"]
              else [lit "created " ++ ofZ n ++ lit " components"]
            else []
        | None => []
        end in
      let parts3 :=
        match md_addedPackages metadata with
        | Some pkgs =>
            if decide (0 < length pkgs) then
              [lit "added " ++ ofNat (length pkgs) ++ lit " package"
               ++ (if decide (1 < length pkgs) then lit "s" else [])]
            else []
        | None => []
        end in
      let parts := parts1 ++ parts2 ++ parts3 in
      if decide (0 < length parts) then join (lit ", ") parts
      else lit "Generated code"
  end.

(** [file.path.split('/').pop() || file.path] *)
Definition baseName (path : str) : str :=
  match popValue (split slash path) with
  | Some n => if truthy n then n else path
  | None => path
  end.

(** The names the [reduce] collects under one action, in order. *)
Definition namesWithAction (a : FileAction) (appliedFiles : list AppliedFile)
  : list str :=
  (λ f, baseName (af_path f)) <$> filter (λ f, af_action f = a) appliedFiles.

Definition summarizeFileActions (appliedFiles : list AppliedFile) : str :=
  let createdNames := namesWithAction created appliedFiles in
  let modifiedNames := namesWithAction modified appliedFiles in
  let deletedNames := namesWithAction deleted appliedFiles in
  let summaries1 :=
    if decide (0 < length createdNames) then
      [lit "created " ++ join (lit ", ") (take 3 createdNames)
       ++ (if decide (3 < length createdNames)
           then lit " (+" ++ ofNat (length createdNames - 3) ++ lit ")" else [])]
    else [] in
  let summaries2 :=
    if decide (0 < length modifiedNames) then
      [lit "modified " ++ join (lit ", ") (take 3 modifiedNames)
       ++ (if decide (3 < length modifiedNames)
           then lit " (+" ++ ofNat (length modifiedNames - 3) ++ lit ")" else [])]
    else [] in
  let summaries3 :=
    if decide (0 < length deletedNames) then
      [lit "deleted " ++ join (lit ", ") deletedNames]
    else [] in
  join (lit ", ") (summaries1 ++ summaries2 ++ summaries3).

(** The requests named by one lower-cased user message. *)
Definition patternsOf (content : str) : list str :=
  (if strIncludes content (lit "hero") then [lit "hero section edits"] else [])
  ++ (if strIncludes content (lit "header") then [lit "header modifications"] else [])
  ++ (if strIncludes content (lit "color") || strIncludes content (lit "style")
      then [lit "styling changes"] else [])
  ++ (if strIncludes content (lit "button") then [lit "button updates"] else [])
  ++ (if strIncludes content (lit "animation") then [lit "animation requests"] else []).

Record Preferences := {
  commonPatterns : list str;
  preferredEditStyle : EditStyle;
}.

Definition analyzeUserPreferences (host : Host) (msgs : list ConversationMessage)
  : Preferences :=
  let userMessages := filter (λ m, msg_role m = user) msgs in
  let contents := (λ m, toLowerCase host (msg_content m)) <$> userMessages in
  let targetedEditCount := length (filter (λ c, matchesTargeted host c = true) contents) in
  let comprehensiveEditCount :=
    length (filter (λ c, matchesComprehensive host c = true) contents) in
  let patterns := concat (patternsOf <$> contents) in
  {| commonPatterns := take 3 (foldl setAdd [] patterns);
     preferredEditStyle :=
       if decide (comprehensiveEditCount < targetedEditCount)
       then targeted else comprehensive |}.

Definition editStyleName (e : EditStyle) : str :=
  match e with
  | targeted => lit "targeted"
  | comprehensive => lit "comprehensive"
  end.

(** The lines one recent interaction contributes; [number] is
    [recentInteractions.length - index]. *)
Definition interactionLines (now : Z) (number : nat) (interaction : Interaction)
  : list str :=
  let timeAgo := getTimeAgo now (msg_timestamp (userMessage interaction)) in
  [nl ++ lit "**" ++ ofNat number ++ lit ". User (" ++ timeAgo ++ lit "):** "
   ++ dq ++ truncateText (msg_content (userMessage interaction)) 80 ++ dq]
  ++ match aiMessage interaction with
     | Some aiMsg =>
         let aiSummary :=
           orElse (msg_metadata aiMsg ≫= md_actionSummary)
                  (generateActionSummary aiMsg) in
         [lit "**AI Response:** " ++ aiSummary]
         ++ match msg_metadata aiMsg ≫= md_appliedFiles with
            | Some appliedFiles =>
                if decide (0 < length appliedFiles)
                then [lit "**Files:** " ++ summarizeFileActions appliedFiles]
                else []
            | None => []
            end
     | None => []
     end.

(** The [forEach] over the recent interactions, [index] running from 0. *)
Fixpoint interactionsLines (now : Z) (total index : nat)
    (interactions : list Interaction) : list str :=
  match interactions with
  | [] => []
  | interaction :: rest =>
      interactionLines now (total - index) interaction
      ++ interactionsLines now total (S index) rest
  end.

Definition recentSection (now : Z) (msgs : list ConversationMessage) : list str :=
  let recentInteractions := getRecentInteractions msgs 5 in
  if decide (0 < length recentInteractions) then
    [nl ++ lit "### Recent Conversation:"]
    ++ interactionsLines now (length recentInteractions) 0 recentInteractions
  else [].

(** A roll-up line showing the last five entries and how many were left out. *)
Definition rollUp (label : str) (entries : list str) : list str :=
  if decide (0 < length entries) then
    [label ++ join (lit ", ") (sliceLast 5 entries)
     ++ (if decide (5 < length entries)
         then lit " (+" ++ ofNat (length entries - 5) ++ lit " more)" else [])]
  else [].

Definition summarySection (summary : option SessionSummary) : list str :=
  match summary with
  | Some s =>
      [nl ++ lit "### Session Summary:"]
      ++ rollUp (lit "**Created files:** ") (filesCreated s)
      ++ rollUp (lit "**Modified files:** ") (filesModified s)
      ++ rollUp (lit "**Components created:** ") (componentsCreated s)
      ++ (if decide (0 < length (packagesAdded s))
          then [lit "**Packages added:** " ++ join (lit ", ") (packagesAdded s)]
          else [])
  | None => []
  end.

Definition patternsSection (host : Host) (msgs : list ConversationMessage)
  : list str :=
  let userPrefs := analyzeUserPreferences host msgs in
  if decide (0 < length (commonPatterns userPrefs)) then
    [nl ++ lit "### User Patterns:";
     lit "**Edit style:** " ++ editStyleName (preferredEditStyle userPrefs)]
    ++ (if decide (0 < length (commonPatterns userPrefs))
        then [lit "**Common requests:** "
              ++ join (lit ", ") (take 3 (commonPatterns userPrefs))]
        else [])
  else [].

Definition topicSection (topic : option str) : list str :=
  match topic with
  | Some t => if truthy t then [nl ++ lit "### Current Focus: " ++ t] else []
  | None => []
  end.

Definition changesSection (now : Z) (changes : list MajorChange) : list str :=
  let recentChanges := sliceLast 2 changes in
  if decide (0 < length recentChanges) then
    [nl ++ lit "### Recent Major Changes:"]
    ++ ((λ change, lit "- " ++ mc_description change ++ lit " ("
                   ++ getTimeAgo now (mc_timestamp change) ++ lit ")")
          <$> recentChanges)
  else [].

(** [summary?.totalInteractions || messages.length] *)
Definition shownTotal (c : ConversationContext) : str :=
  match sessionSummary c with
  | Some s =>
      if truthyNum (Some (totalInteractions s)) then ofZ (totalInteractions s)
      else ofNat (length (messages c))
  | None => ofNat (length (messages c))
  end.

(** The [sections] array of [buildConversationHistoryPrompt] once every
    block has been pushed. *)
Definition historySections (host : Host) (now : Z) (cs : ConversationState)
  : list str :=
  let c := context cs in
  [lit "## " ++ [55358; 56800]%N ++ lit " CONVERSATION MEMORY";
   lit "Session started: " ++ toLocaleTimeString host (startedAt cs);
   lit "Total interactions: " ++ shownTotal c]
  ++ recentSection now (messages c)
  ++ summarySection (sessionSummary c)
  ++ patternsSection host (messages c)
  ++ topicSection (currentTopic c)
  ++ changesSection now (majorChanges (projectEvolution c)).

(** [sections.join('\n')]: the digest before the length cap. *)
Definition untruncatedDigest (host : Host) (now : Z) (cs : ConversationState) : str :=
  join nl (historySections host now cs).

Definition digestLimit : nat := 2000.
Definition truncationNotice : str :=
  nl ++ lit "[Memory truncated to prevent context overflow]".

(** [now] stands for the readings of [Date.now()] made while rendering. *)
Definition buildConversationHistoryPrompt (host : Host) (now : Z)
    (conversationState : option ConversationState) : str :=
  match conversationState with
  | None => []
  | Some cs =>
      if decide (length (messages (context cs)) ≤ 1) then []
      else
        let result := untruncatedDigest host now cs in
        if decide (digestLimit < length result)
        then take digestLimit result ++ truncationNotice
        else result
  end.

(** ** Target selection of the search executor *)

(** Modelled from the spec: the edit categories for which section 4.5
    describes a selection, the single-point ones.  For the other categories
    it describes none, and they are left out of the model. *)
Inductive SinglePointEdit :=
  | UPDATE_STYLE | FIX_ISSUE | UPDATE_COMPONENT | REMOVE_ELEMENT.

(** Modelled from the spec: the fields section 3 gives a search result; its
    declaration is not among the sources.  Scores are taken as integers. *)
Record SearchResult := {
  filePath : str;
  lineNumber : Z;
  lineContent : str;
  score : Z;
  matchedTerm : str;
}.

(** Code-unit lexical order on strings, the order of [<] on JavaScript
    strings: [strLess a b] when [a] sorts strictly before [b]. *)
Fixpoint strLess (a b : str) : bool :=
  match a, b with
  | _, [] => false
  | [], _ :: _ => true
  | x :: a', y :: b' => (x <? y)%N || ((x =? y)%N && strLess a' b')
  end.

(** [precedes a b]: [a] is preferred to [b], by higher score, then by
    earlier line, then by lexically smaller path. *)
Definition precedes (a b : SearchResult) : bool :=
  (score b <? score a)%Z
  || ((score a =? score b)%Z
      && ((lineNumber a <? lineNumber b)%Z
          || ((lineNumber a =? lineNumber b)%Z
              && strLess (filePath a) (filePath b)))).

Definition pickBetter (best : option SearchResult) (r : SearchResult)
  : option SearchResult :=
  match best with
  | None => Some r
  | Some b => if precedes r b then Some r else Some b
  end.

(** The grouping of the results by file path: one group per path, in the
    order in which the paths first occur. *)
Fixpoint addToGroup (groups : list (list N * list SearchResult)) (r : SearchResult)
  : list (list N * list SearchResult) :=
  match groups with
  | [] => [(filePath r, [r])]
  | (path, members) :: rest =>
      if decide (path = filePath r) then (path, members ++ [r]) :: rest
      else (path, members) :: addToGroup rest r
  end.

Definition groupByFile (results : list SearchResult)
  : list (list N * list SearchResult) :=
  foldl addToGroup [] results.

(** Modelled from the spec: [lib/file-search-executor.ts], which defines
    [selectTargetFile], is not among the sources.  Following the words of
    section 4.5: the results are grouped by file path, and for a
    single-point edit category the single highest-scoring result overall is
    picked, ties broken by earliest line number and then by file path
    lexical order; without any result there is no target. *)
Definition selectTargetFile (results : list SearchResult) (editType : SinglePointEdit)
  : option SearchResult :=
  foldl pickBetter None (concat (snd <$> groupByFile results)).





(** The candidate list as the prose describes it for a relative specifier:
    the index filenames when the specifier ends in a slash, otherwise the
    resolved path with each extension appended, in the fixed order. *)
Definition extensionCandidates (fromFile importSource : str) : list str :=
  let resolved :=
    resolvePath (substring0 fromFile (lastIndexOf fromFile slash)) importSource in
  if endsWith importSource (lit "/")
  then (λ ext, resolved ++ lit "/index" ++ ext) <$> possibleExtensions
  else (λ ext, resolved ++ ext) <$> possibleExtensions.

(** Whether the specifier already carries one of the code extensions. *)
Definition carriesExtension (importSource : str) : bool :=
  existsb (λ ext, endsWith importSource ext) possibleExtensions.

(** [firstPresent candidates allPaths p]: [p] is the first entry of
    [candidates] that occurs in [allPaths]. *)
Definition firstPresent (candidates allPaths : list str) (p : str) : Prop :=
  ∃ i, candidates !! i = Some p ∧ p ∈ allPaths
       ∧ ∀ j q, j < i → candidates !! j = Some q → q ∉ allPaths.

(** The candidates [resolveImportPath] goes through for a relative
    specifier, each with its runs of slashes collapsed: the resolved path
    alone when the specifier names a file and already carries an extension,
    the extension candidates otherwise. *)
Definition resolutionCandidates (fromFile importSource : str) : list str :=
  collapseSlashes <$>
    (if negb (endsWith importSource (lit "/")) && carriesExtension importSource
     then [resolvePath (substring0 fromFile (lastIndexOf fromFile slash)) importSource]
     else extensionCandidates fromFile importSource).


(** The message log of [updateConversationMemory] once the user message and,
    when there is a response, the assistant message have been pushed, before
    the clean-up. *)
Definition appendedMessages (now : Z) (cs : ConversationState)
    (userMsg : ConversationMessage) (aiResponse : option AiResponse)
  : list ConversationMessage :=
  messages (context cs) ++ [userMsg]
  ++ match aiResponse with
     | Some response => [aiMessageOf now response]
     | None => []
     end.

Definition logOf (cs : ConversationState) : list ConversationMessage :=
  messages (context cs).

(** [summaryGrows s s']: each cumulative list of [s] is an initial segment of
    the same list of [s']. *)
Definition summaryGrows (s s' : SessionSummary) : Prop :=
  filesCreated s `prefix_of` filesCreated s'
  ∧ filesModified s `prefix_of` filesModified s'
  ∧ packagesAdded s `prefix_of` packagesAdded s'
  ∧ componentsCreated s `prefix_of` componentsCreated s'.

(** How many calls of a run carry an AI result. *)
Definition callsWithResult (calls : list MemoryCall) : nat :=
  length (filter (λ c, is_Some (call_aiResponse c)) calls).

(** The pairing as the prose describes it: every user message goes with the
    assistant message right after it in the log, or with nothing when none
    follows; the most recent [maxCount] pairs are kept. *)
Fixpoint pairsInLogOrder (msgs : list ConversationMessage) : list Interaction :=
  match msgs with
  | [] => []
  | m :: rest =>
      match msg_role m with
      | user =>
          match rest with
          | a :: rest' =>
              match msg_role a with
              | assistant =>
                  {| userMessage := m; aiMessage := Some a |} :: pairsInLogOrder rest'
              | user => {| userMessage := m; aiMessage := None |} :: pairsInLogOrder rest
              end
          | [] => [{| userMessage := m; aiMessage := None |}]
          end
      | assistant => pairsInLogOrder rest
      end
  end.

Definition recentPairsAsDescribed (msgs : list ConversationMessage) (maxCount : nat)
  : list Interaction :=
  sliceLast maxCount (pairsInLogOrder msgs).

(** A plain message, for worked examples. *)
Definition plainMessage (id : string) (r : Role) (text : string) (t : Z)
  : ConversationMessage :=
  {| msg_id := lit id; msg_role := r; msg_content := lit text;
     msg_timestamp := t; msg_metadata := None |}.

(** The text [buildConversationHistoryPrompt] would return without its
    length cap. *)
Definition uncappedHistoryPrompt (host : Host) (now : Z)
    (conversationState : option ConversationState) : str :=
  match conversationState with
  | None => []
  | Some cs =>
      if decide (length (messages (context cs)) ≤ 1) then []
      else untruncatedDigest host now cs
  end.

(** A host for worked examples: times render as their number, text is
    taken to be lower case already, and neither pattern matches. *)
Definition plainHost : Host :=
  {| toLocaleTimeString := ofZ;
     toLowerCase := λ s, s;
     matchesTargeted := λ _, false;
     matchesComprehensive := λ _, false |}.

(** A state with one logged message, a topic, a change record and a summary
    that has counted seven interactions. *)
Definition oneMessageState : ConversationState :=
  {| conversationId := lit "conv-1";
     startedAt := 1000;
     lastUpdated := 2000;
     context :=
       {| messages := [plainMessage "msg-1" user "make the header blue" 1500];
          edits := [];
          currentTopic := Some (lit "header styling");
          projectEvolution :=
            {| initialState := None;
               majorChanges := [{| mc_timestamp := 1200;
                                   mc_description := lit "initial scaffold";
                                   mc_filesAffected := [lit "/src/App.jsx"] |}] |};
          userPreferences := {| editStyle := None; commonRequests := None;
                                packagePreferences := None |};
          sessionSummary :=
            Some {| totalInteractions := 7;
                    filesCreated := [lit "/src/App.jsx"];
                    filesModified := [];
                    packagesAdded := [];
                    componentsCreated := [lit "App"];
                    lastActionSummary := None;
                    sessionGoals := None |} |} |}.

(** The manifest of the end-to-end scenario: [App.jsx] imports [Header.jsx]
    and [Footer.jsx]; the component tree mirrors the imports. *)
Definition scenarioManifest : FileManifest :=
  {| files :=
       <[lit "/home/user/app/src/App.jsx" :=
           {| fi_content := lit "import Header from './components/Header'";
              fi_type := lit "component";
              fi_imports := Some [ {| imp_source := lit "./components/Header";
                                      imp_isLocal := true |};
                                   {| imp_source := lit "./components/Footer";
                                      imp_isLocal := true |};
                                   {| imp_source := lit "react";
                                      imp_isLocal := false |} ];
              fi_componentInfo := Some {| ci_name := lit "App";
                                          ci_childComponents := None |} |}]>
       (<[lit "/home/user/app/src/components/Header.jsx" :=
            {| fi_content := lit "<header className='bg-blue-500' />";
               fi_type := lit "component";
               fi_imports := Some [ {| imp_source := lit "./Logo";
                                       imp_isLocal := true |} ];
               fi_componentInfo := Some {| ci_name := lit "Header";
                                           ci_childComponents := None |} |}]>
       (<[lit "/home/user/app/src/components/Footer.jsx" :=
            {| fi_content := lit "<footer />";
               fi_type := lit "component";
               fi_imports := None;
               fi_componentInfo := Some {| ci_name := lit "Footer";
                                           ci_childComponents := None |} |}]> ∅));
     componentTree :=
       <[lit "App" := {| tn_file := lit "/home/user/app/src/App.jsx";
                         tn_imports := [lit "Header"; lit "Footer"];
                         tn_importedBy := [] |}]>
       (<[lit "Header" := {| tn_file := lit "/home/user/app/src/components/Header.jsx";
                             tn_imports := [lit "Logo"];
                             tn_importedBy := [lit "App"] |}]>
       (<[lit "Footer" := {| tn_file := lit "/home/user/app/src/components/Footer.jsx";
                             tn_imports := [];
                             tn_importedBy := [lit "App"] |}]> ∅));
     entryPoint := lit "/home/user/app/src/main.jsx";
     routes := [] |}.

Definition scenarioPaths : list str :=
  [lit "/home/user/app/src/App.jsx";
   lit "/home/user/app/src/components/Header.jsx";
   lit "/home/user/app/src/components/Footer.jsx";
   lit "/home/user/app/src/index.css"].

(** A run of [n] calls that each log one user message and no AI result. *)
Definition userOnlyCalls (n : nat) : list MemoryCall :=
  (λ i, {| call_now := Z.of_nat i;
           call_userMessage := plainMessage "msg" user "change the header" (Z.of_nat i);
           call_aiResponse := None |}) <$> seq 0 n.

(** [path] is the file of some node of the component tree. *)
Definition treeFile (manifest : FileManifest) (path : str) : Prop :=
  ∃ name node, componentTree manifest !! name = Some node ∧ tn_file node = path.


(** [pairedInside post i]: inside the stretch [post] of the log, the user
    message of [i] is a user message that comes right after the assistant
    message of [i], or right after another user message when [i] has no
    assistant message. *)
Definition pairedInside (post : list ConversationMessage) (i : Interaction) : Prop :=
  msg_role (userMessage i) = user
  ∧ match aiMessage i with
    | Some a =>
        msg_role a = assistant
        ∧ ∃ l1 l3, post = l1 ++ a :: userMessage i :: l3
    | None =>
        ∃ l1 u' l3, msg_role u' = user ∧ post = l1 ++ u' :: userMessage i :: l3
    end.

(** [pairedAsScanned msgs i]: as [pairedInside], or the user message of [i]
    opens the log and [i] has no assistant message. *)
Definition pairedAsScanned (msgs : list ConversationMessage) (i : Interaction) : Prop :=
  pairedInside msgs i
  ∨ (msg_role (userMessage i) = user ∧ aiMessage i = None
     ∧ ∃ l3, msgs = userMessage i :: l3).

(** The five request labels [analyzeUserPreferences] can report. *)
Definition requestLabels : list str :=
  [lit "hero section edits"; lit "header modifications"; lit "styling changes";
   lit "button updates"; lit "animation requests"].

(** The four cumulative lists of a summary have no repeated entry. *)
Definition summaryNoDup (s : SessionSummary) : Prop :=
  NoDup (filesCreated s) ∧ NoDup (filesModified s)
  ∧ NoDup (packagesAdded s) ∧ NoDup (componentsCreated s).

(** The first line of the digest and the start of its second line. *)
Definition digestOpening : str :=
  lit "## " ++ [55358; 56800]%N ++ lit " CONVERSATION MEMORY" ++ nl
  ++ lit "Session started: ".

(** The non-empty pieces between the slashes of a path, as [resolvePath]
    takes them from its two arguments. *)
Definition segmentsOf (s : str) : list str :=
  filter (λ p, truthy p = true) (split slash s).

(** ** [lib/context-selector.ts]: the tables as plain objects *)

(** [manifest.files], [manifest.componentTree], the label table of
    [getFileExtension] and the object [getFileContents] fills are ordinary
    objects, as an object literal or [JSON.parse] makes them: a property
    read that finds no own key goes on to [Object.prototype].  [obj[k]]
    therefore finds something for the own keys of [obj] and also for the
    member names of [Object.prototype]; what it finds there is a function
    (for [__proto__] the prototype object itself), which is truthy and has
    none of the properties the code goes on to read ([imports],
    [componentInfo], [content], [file], [importedBy]).

    The definitions of this module follow the source functions with every
    table read going through [get]; the definitions of the same names above
    read own keys only. *)
Module PlainObject.

(** The member names of [Object.prototype]. *)
Definition inheritedNames : list str :=
  [ lit "constructor"; lit "__defineGetter__"; lit "__defineSetter__";
    lit "hasOwnProperty"; lit "__lookupGetter__"; lit "__lookupSetter__";
    lit "isPrototypeOf"; lit "propertyIsEnumerable"; lit "toString";
    lit "valueOf"; lit "__proto__"; lit "toLocaleString" ].

(** What [obj[k]] finds: the value of an own key, a member of
    [Object.prototype], or nothing ([undefined]). *)
Inductive Lookup (V : Type) : Type :=
  | Own (v : V)
  | Inherited
  | Missing.
Arguments Own {V} v.
Arguments Inherited {V}.
Arguments Missing {V}.

Definition getOwn {V} (own : option V) (k : str) : Lookup V :=
  match own with
  | Some v => Own v
  | None => if bool_decide (k ∈ inheritedNames) then Inherited else Missing
  end.

Definition get {V} (obj : gmap (list N) V) (k : str) : Lookup V :=
  getOwn (obj !! k) k.

(** How a call ends: with a value, or with the [TypeError] that reading a
    property of [undefined], or iterating over it, throws. *)
Inductive Completion (A : Type) : Type :=
  | Normal (a : A)
  | TypeError.
Arguments Normal {A} a.
Arguments TypeError {A}.

Definition andThen {A B} (c : Completion A) (f : A → Completion B)
  : Completion B :=
  match c with
  | Normal a => f a
  | TypeError => TypeError
  end.

(** A loop whose body may throw. *)
Definition forEach {A B} (body : B → A → Completion B) (start : B) (l : list A)
  : Completion B :=
  foldl (λ acc a, andThen acc (λ b, body b a)) (Normal start) l.

(** *** [buildLocalContext] *)

(** The elements of the context set are strings or [undefined] ([None]). *)
Definition includesValue (a : list (option str)) (x : option str) : bool :=
  bool_decide (x ∈ a).

Definition setAdd (s : list (option str)) (x : option str) : list (option str) :=
  if includesValue s x then s else s ++ [x].

(** Body of the loop over [fileInfo.imports]. *)
Definition addImport (primaryFiles allFiles : list str) (primaryFile : str)
    (contextFiles : list (option str)) (importInfo : ImportInfo)
  : list (option str) :=
  if imp_isLocal importInfo && truthy (imp_source importInfo) then
    match resolveImportPath primaryFile (imp_source importInfo) allFiles with
    | Some resolvedPath =>
        if truthy resolvedPath && negb (includes primaryFiles resolvedPath)
        then setAdd contextFiles (Some resolvedPath)
        else contextFiles
    | None => contextFiles
    end
  else contextFiles.

(** Body of the two loops over [treeNode.importedBy] and [treeNode.imports].
    A member of [Object.prototype] passes the test [importingNode &&
    !primaryFiles.includes(importingNode.file)], its [file] being
    [undefined], and [undefined] is added to the set. *)
Definition addComponent (manifest : FileManifest) (primaryFiles : list str)
    (contextFiles : list (option str)) (componentName : str)
  : list (option str) :=
  match get (componentTree manifest) componentName with
  | Own node =>
      if negb (includes primaryFiles (tn_file node))
      then setAdd contextFiles (Some (tn_file node))
      else contextFiles
  | Inherited => setAdd contextFiles None
  | Missing => contextFiles
  end.

(** Body of the loop over [primaryFiles].  A member of [Object.prototype]
    found for the primary file has neither [imports] nor [componentInfo];
    one found for the component name passes [if (treeNode)], and the loop
    over its [importedBy], which is [undefined], throws. *)
Definition addLocalContext (manifest : FileManifest) (primaryFiles allFiles : list str)
    (contextFiles : list (option str)) (primaryFile : str)
  : Completion (list (option str)) :=
  match get (files manifest) primaryFile with
  | Missing => Normal contextFiles
  | Inherited => Normal contextFiles
  | Own fileInfo =>
      let contextFiles1 :=
        match fi_imports fileInfo with
        | Some imports =>
            foldl (addImport primaryFiles allFiles primaryFile) contextFiles imports
        | None => contextFiles
        end in
      match fi_componentInfo fileInfo with
      | Some componentInfo =>
          match get (componentTree manifest) (ci_name componentInfo) with
          | Own treeNode =>
              let contextFiles2 :=
                foldl (addComponent manifest primaryFiles) contextFiles1
                      (tn_importedBy treeNode) in
              Normal (foldl (addComponent manifest primaryFiles) contextFiles2
                            (tn_imports treeNode))
          | Inherited => TypeError
          | Missing => Normal contextFiles1
          end
      | None => Normal contextFiles1
      end
  end.

Definition contextSetOf (primaryFiles : list str) (manifest : FileManifest)
    (allFiles : list str) : Completion (list (option str)) :=
  forEach (addLocalContext manifest primaryFiles allFiles)
          (foldl setAdd [] (Some <$> essentialFilesOf allFiles primaryFiles))
          primaryFiles.

Definition buildLocalContext (primaryFiles : list str) (manifest : FileManifest)
    (allFiles : list str) : Completion (list (option str)) :=
  let essentialFiles := Some <$> essentialFilesOf allFiles primaryFiles in
  andThen (contextSetOf primaryFiles manifest allFiles) (λ contextFiles,
    Normal (essentialFiles
            ++ filter (λ f, includesValue essentialFiles f = false) contextFiles)).

(** *** [getFileContents] *)

(** The object under construction: its own properties in the order of
    their creation, each with a string or [undefined] ([None]). *)
Fixpoint recordSet (o : list (list N * option (list N))) (k : str) (v : option str)
  : list (list N * option (list N)) :=
  match o with
  | [] => [(k, v)]
  | (k', v') :: o' =>
      if decide (k' = k) then (k, v) :: o' else (k', v') :: recordSet o' k v
  end.

(** [contents[k] = v].  The key [__proto__] reaches the setter of
    [Object.prototype], which ignores a value that is neither an object nor
    [null]; every other key becomes, or stays, an own property. *)
Definition assign (o : list (list N * option (list N))) (k : str) (v : option str)
  : list (list N * option (list N)) :=
  if decide (k = lit "__proto__") then o else recordSet o k v.

(** The value the returned promise resolves to.  A member of
    [Object.prototype] found for the path passes [if (fileInfo)], and its
    [content], which is [undefined], is stored. *)
Definition getFileContents (filesWanted : list str) (manifest : FileManifest)
  : list (list N * option (list N)) :=
  foldl (λ contents file,
           match get (files manifest) file with
           | Own fileInfo => assign contents file (Some (fi_content fileInfo))
           | Inherited => assign contents file None
           | Missing => contents
           end)
        [] filesWanted.

(** *** The order of [Object.entries] *)

Definition digitValue (c : N) : option N :=
  if ((48 <=? c) && (c <=? 57))%N then Some (c - 48)%N else None.

Fixpoint digitsValue (acc : N) (s : str) : option N :=
  match s with
  | [] => Some acc
  | c :: s' =>
      match digitValue c with
      | Some d => digitsValue (10 * acc + d)%N s'
      | None => None
      end
  end.

(** The array index a key stands for, if any: a decimal numeral without
    a leading zero (or [0] itself) below [2^32 - 1]. *)
Definition arrayIndex (k : str) : option N :=
  match k with
  | [] => None
  | c :: rest =>
      if bool_decide (c = 48%N) && negb (bool_decide (rest = [])) then None
      else match digitsValue 0 k with
           | Some n => if (n <? 4294967295)%N then Some n else None
           | None => None
           end
  end.

Fixpoint insertIndexed {V} (n : N) (e : list N * V) (sorted : list (N * (list N * V)))
  : list (N * (list N * V)) :=
  match sorted with
  | [] => [(n, e)]
  | (m, e') :: rest =>
      if (n <? m)%N then (n, e) :: (m, e') :: rest
      else (m, e') :: insertIndexed n e rest
  end.

Definition indexedEntries {V} (o : list (list N * V)) : list (N * (list N * V)) :=
  foldr (λ e sorted,
           match arrayIndex e.1 with
           | Some n => insertIndexed n e sorted
           | None => sorted
           end)
        [] o.

(** [Object.entries(o)]: the array-index keys first, in ascending numeric
    order, then the other keys in the order of their creation. *)
Definition entries {V} (o : list (list N * V)) : list (list N * V) :=
  (indexedEntries o).*2
  ++ filter (λ e, arrayIndex e.1 = None) o.

(** *** [getFileExtension] *)

(** What [getFileExtension] returns: a string, or the member of
    [Object.prototype] of the given name (which the template of
    [formatFilesForAI] then turns into text). *)
Inductive Label :=
  | Text (s : str)
  | InheritedMember (name : str).

Definition getFileExtension (path : str) : Label :=
  let ext := match popValue (split dot path) with
             | Some e => if truthy e then e else []
             | None => []
             end in
  match getOwn (extensionMapping ext) ext with
  | Own m => Text (if truthy m then m else ext)
  | Inherited => InheritedMember ext
  | Missing => Text ext
  end.

(** *** [buildComponentRelationships] *)

(** What one iteration of the loop pushes for [file].  A member of
    [Object.prototype] found for the file has no [componentInfo]; one found
    for the component name passes [if (treeNode)], and reading the length
    of its [imports], which is [undefined], throws. *)
Definition relationshipLines (manifest : FileManifest) (file : str)
  : Completion (list str) :=
  match get (files manifest) file with
  | Missing => Normal []
  | Inherited => Normal []
  | Own fileInfo =>
      match fi_componentInfo fileInfo with
      | None => Normal []
      | Some componentInfo =>
          let componentName := ci_name componentInfo in
          match get (componentTree manifest) componentName with
          | Missing => Normal []
          | Inherited => TypeError
          | Own treeNode =>
              Normal
                ([nl ++ lit "### " ++ componentName]
                 ++ (if decide (0 < length (tn_imports treeNode))
                     then [lit "Imports: " ++ join (lit ", ") (tn_imports treeNode)]
                     else [])
                 ++ (if decide (0 < length (tn_importedBy treeNode))
                     then [lit "Used by: " ++ join (lit ", ") (tn_importedBy treeNode)]
                     else [])
                 ++ (match ci_childComponents componentInfo with
                     | Some children =>
                         if decide (0 < length children)
                         then [lit "Renders: " ++ join (lit ", ") children]
                         else []
                     | None => []
                     end))
          end
      end
  end.

Definition buildComponentRelationships (filesShown : list str)
    (manifest : FileManifest) : Completion str :=
  andThen
    (forEach (λ relationships file,
                andThen (relationshipLines manifest file) (λ lines,
                  Normal (relationships ++ lines)))
             [lit "## Component Relationships"] filesShown)
    (λ relationships, Normal (join nl relationships)).

End PlainObject.

(** A manifest with one file, whose component is called [toString] and has
    no node in the (empty) component tree. *)
Definition formatterManifest : FileManifest :=
  {| files :=
       <[lit "/home/user/app/src/utils/toString.js" :=
           {| fi_content := lit "export default function toString(v) { return String(v) }";
              fi_type := lit "utility";
              fi_imports := Some [];
              fi_componentInfo := Some {| ci_name := lit "toString";
                                          ci_childComponents := None |} |}]> ∅;
     componentTree := ∅;
     entryPoint := lit "/home/user/app/src/main.jsx";
     routes := [] |}.

(** A manifest whose paths are [b.js], [10] and [2]. *)
Definition numberedManifest : FileManifest :=
  {| files :=
       <[lit "b.js" := {| fi_content := lit "b"; fi_type := lit "utility";
                          fi_imports := None; fi_componentInfo := None |}]>
       (<[lit "10" := {| fi_content := lit "ten"; fi_type := lit "utility";
                         fi_imports := None; fi_componentInfo := None |}]>
       (<[lit "2" := {| fi_content := lit "two"; fi_type := lit "utility";
                        fi_imports := None; fi_componentInfo := None |}]> ∅));
     componentTree := ∅;
     entryPoint := lit "b.js";
     routes := [] |}.

(** [name] is listed by a node of the component tree, is no key of the tree
    and is a member name of [Object.prototype]. *)
Definition inheritedHit (manifest : FileManifest) (name : str) : Prop :=
  name ∈ PlainObject.inheritedNames
  ∧ componentTree manifest !! name = None
  ∧ ∃ owner node, componentTree manifest !! owner = Some node
                  ∧ name ∈ tn_importedBy node ++ tn_imports node.

(** No component name the manifest mentions is a member name of
    [Object.prototype]. *)
Definition plainNames (manifest : FileManifest) : Prop :=
  map_Forall (λ _ fileInfo,
                match fi_componentInfo fileInfo with
                | Some componentInfo => ci_name componentInfo ∉ PlainObject.inheritedNames
                | None => True
                end) (files manifest)
  ∧ map_Forall (λ _ node,
                  Forall (λ name, name ∉ PlainObject.inheritedNames)
                         (tn_importedBy node ++ tn_imports node))
               (componentTree manifest).

(** * Properties *)

(** ** Import resolution *)

Section resolve.
Implicit Types (fromFile importSource p q : str) (allPaths : list str).

Lemma firstExisting_Some possiblePaths allPaths p :
  firstExisting possiblePaths allPaths = Some p
  ↔ firstPresent (collapseSlashes <$> possiblePaths) allPaths p.
Proof.
  unfold firstPresent.
  induction possiblePaths as [|c cs IH]; cbn [firstExisting fmap list_fmap].
  - split; [done|]. intros (i & Hi & _). by rewrite lookup_nil in Hi.
  - unfold includes at 1. case_bool_decide as Hc.
    + split.
      * intros [= <-]. exists 0. split_and!; [done|done|]. intros j q Hj. lia.
      * intros (i & Hi & Hp & Hbefore). destruct i as [|i]; [by simplify_eq/=|].
        exfalso. apply (Hbefore 0 (collapseSlashes c)); [lia|done|done].
    + rewrite IH. split.
      * intros (i & Hi & Hp & Hbefore). exists (S i). split_and!; [done|done|].
        intros [|j] q Hj Hq; simplify_eq/=; [done|].
        apply (Hbefore j q); [lia|done].
      * intros (i & Hi & Hp & Hbefore). destruct i as [|i]; [by simplify_eq/=|].
        exists i. split_and!; [done|done|].
        intros j q Hj Hq. apply (Hbefore (S j) q); [lia|done].
Qed.

Lemma firstExisting_None possiblePaths allPaths :
  firstExisting possiblePaths allPaths = None
  ↔ ∀ q, q ∈ collapseSlashes <$> possiblePaths → q ∉ allPaths.
Proof.
  induction possiblePaths as [|c cs IH]; cbn [firstExisting fmap list_fmap].
  - split; [|done]. intros _ q Hq. by apply elem_of_nil in Hq.
  - unfold includes at 1. case_bool_decide as Hc.
    + split; [done|]. intros Hall. exfalso.
      apply (Hall (collapseSlashes c)); [left|done].
    + rewrite IH. split.
      * intros Hall q [->|Hq]%elem_of_cons; [done|by apply Hall].
      * intros Hall q Hq. apply Hall. by right.
Qed.

Lemma possiblePathsOf_cases fromFile importSource :
  possiblePathsOf fromFile importSource =
    if negb (endsWith importSource (lit "/")) && carriesExtension importSource
    then [resolvePath (substring0 fromFile (lastIndexOf fromFile slash)) importSource]
    else extensionCandidates fromFile importSource.
Proof.
  unfold possiblePathsOf, extensionCandidates, carriesExtension.
  destruct (endsWith importSource (lit "/")); cbn [negb andb].
  - generalize (resolvePath (substring0 fromFile (lastIndexOf fromFile slash))
                            importSource).
    intros resolved. reflexivity.
  - by destruct (existsb _ possibleExtensions).
Qed.

Lemma applySegment_parent (parts : list str) :
  applySegment parts (lit "..") = take (length parts - 1) parts.
Proof. unfold applySegment. by rewrite decide_True. Qed.

Lemma applySegment_here (parts : list str) :
  applySegment parts (lit ".") = parts.
Proof.
  unfold applySegment. rewrite decide_False; [|done]. rewrite decide_False; [done|].
  intros H. by apply H.
Qed.

Lemma applySegment_name (parts : list str) (part : str) :
  part ≠ lit ".." → part ≠ lit "." → applySegment parts part = parts ++ [part].
Proof.
  intros H1 H2. unfold applySegment. rewrite decide_False; [|done].
  by rewrite decide_True.
Qed.

End resolve.

(** C5 (as amended).  [resolveImportPath] returns absent for every specifier
    that does not begin with a dot.  For a specifier that does, the result
    is the first of its candidates present in [allPaths], and absent exactly
    when none is present; the candidates are resolved against the directory
    of the importing file ([..] pops a segment, [.] changes nothing) and are
    the index filenames when the specifier ends in a slash, the resolved
    path itself when the specifier already carries one of the extensions,
    and otherwise the resolved path with [.jsx], [.tsx], [.js], [.ts]
    appended in that order.  From [/a/b/C.jsx], [./D] yields [/a/b/D.jsx]
    whenever that path is present, and [../E] resolves against [/a/E.*]. *)
Theorem resolveImportPath_first_candidate
    (fromFile importSource : list N) (allPaths : list (list N)) :
  (startsWith importSource (lit ".") = false →
     resolveImportPath fromFile importSource allPaths = None)
  ∧ (startsWith importSource (lit ".") = true →
       (∀ p, resolveImportPath fromFile importSource allPaths = Some p
             ↔ firstPresent (resolutionCandidates fromFile importSource) allPaths p)
       ∧ (resolveImportPath fromFile importSource allPaths = None
          ↔ ∀ q, q ∈ resolutionCandidates fromFile importSource → q ∉ allPaths))
  ∧ (∀ parts : list (list N),
       applySegment parts (lit "..") = take (length parts - 1) parts
       ∧ applySegment parts (lit ".") = parts)
  ∧ (lit "/a/b/D.jsx" ∈ allPaths →
       resolveImportPath (lit "/a/b/C.jsx") (lit "./D") allPaths
       = Some (lit "/a/b/D.jsx"))
  ∧ (∀ p, resolveImportPath (lit "/a/b/C.jsx") (lit "../E") allPaths = Some p
          ↔ firstPresent [lit "/a/E.jsx"; lit "/a/E.tsx"; lit "/a/E.js"; lit "/a/E.ts"]
                         allPaths p).
Proof.
  split_and!.
  - intros Hrel. unfold resolveImportPath. by rewrite Hrel.
  - intros Hrel. unfold resolveImportPath, resolutionCandidates.
    rewrite Hrel. cbn [negb]. rewrite possiblePathsOf_cases. split.
    + intros p. apply firstExisting_Some.
    + apply firstExisting_None.
  - intros parts. split; [apply applySegment_parent|apply applySegment_here].
  - intros Hin.
    assert (resolveImportPath (lit "/a/b/C.jsx") (lit "./D") allPaths
            = firstExisting [lit "/a/b/D.jsx"; lit "/a/b/D.tsx";
                             lit "/a/b/D.js"; lit "/a/b/D.ts"] allPaths) as ->
      by reflexivity.
    cbn [firstExisting].
    assert (collapseSlashes (lit "/a/b/D.jsx") = lit "/a/b/D.jsx") as -> by reflexivity.
    unfold includes. by rewrite bool_decide_eq_true_2.
  - intros p.
    assert (resolveImportPath (lit "/a/b/C.jsx") (lit "../E") allPaths
            = firstExisting [lit "/a/E.jsx"; lit "/a/E.tsx";
                             lit "/a/E.js"; lit "/a/E.ts"] allPaths) as ->
      by reflexivity.
    apply firstExisting_Some.
Qed.

(** For a specifier that already carries an extension the extension
    candidates are not tried: [./D.jsx] resolves to [/a/b/D.jsx], which is
    none of them, and going through the extension candidates alone would
    have found nothing. *)
Lemma resolveImportPath_keeps_extension :
  startsWith (lit "./D.jsx") (lit ".") = true
  ∧ resolveImportPath (lit "/a/b/C.jsx") (lit "./D.jsx") [lit "/a/b/D.jsx"]
    = Some (lit "/a/b/D.jsx")
  ∧ firstExisting (extensionCandidates (lit "/a/b/C.jsx") (lit "./D.jsx"))
                  [lit "/a/b/D.jsx"] = None.
Proof. vm_compute. done. Qed.

(** ** Local context *)

Section local_context.
Implicit Types (s p x f : str) (ctx primaryFiles allFiles : list str).

Lemma endsWith_suffix s p : endsWith s p = true ↔ p `suffix_of` s.
Proof.
  unfold endsWith. rewrite bool_decide_eq_true. split.
  - intros [Hlen Hdrop]. exists (take (length s - length p) s).
    trans (take (length s - length p) s ++ drop (length s - length p) s).
    + by rewrite take_drop.
    + by rewrite Hdrop.
  - intros [k ->]. rewrite length_app. split; [lia|].
    replace (length k + length p - length p) with (length k) by lia.
    by rewrite drop_app_length.
Qed.

Lemma suffix_same_length {A} (l1 l2 l : list A) :
  l1 `suffix_of` l → l2 `suffix_of` l → length l1 = length l2 → l1 = l2.
Proof.
  intros [k1 ->] [k2 Heq] Hlen. by apply app_inj_2 in Heq as [_ ?].
Qed.

Lemma endsWith_tail s p1 p2 : endsWith s (p1 ++ p2) = true → endsWith s p2 = true.
Proof.
  rewrite !endsWith_suffix. intros H. etrans; [|exact H]. by apply suffix_app_r.
Qed.

Lemma includes_true (a : list str) x : includes a x = true ↔ x ∈ a.
Proof. unfold includes. apply bool_decide_eq_true. Qed.

Lemma includes_false (a : list str) x : includes a x = false ↔ x ∉ a.
Proof. unfold includes. apply bool_decide_eq_false. Qed.


Lemma NoDup_setAdd ctx x : NoDup ctx → NoDup (setAdd ctx x).
Proof.
  intros Hnd. unfold setAdd. destruct (includes ctx x) eqn:Hin; [done|].
  apply includes_false in Hin. apply NoDup_app. split_and!; [done| |apply NoDup_singleton].
  intros y Hy ->%list_elem_of_singleton. done.
Qed.






Lemma essentialCandidate_elem allFiles primaryFiles e1 e2 x :
  x ∈ essentialCandidate allFiles primaryFiles e1 e2 →
  essentialCandidate allFiles primaryFiles e1 e2 = [x]
  ∧ (x ∉ primaryFiles) ∧ (x ∈ allFiles)
  ∧ (endsWith x e1 = true ∨ endsWith x e2 = true).
Proof.
  unfold essentialCandidate.
  destruct (List.find _ allFiles) as [f|] eqn:Hfind; [|by intros ?%elem_of_nil].
  apply List.find_some in Hfind as [Hin Hends].
  destruct (truthy f); cbn [andb]; [|by intros ?%elem_of_nil].
  destruct (includes primaryFiles f) eqn:Hprim; cbn [negb]; [by intros ?%elem_of_nil|].
  intros ->%list_elem_of_singleton. split_and!; [done| | |].
  - by apply includes_false.
  - by apply list_elem_of_In.
  - by apply orb_true_iff in Hends.
Qed.

Lemma NoDup_essentialCandidate allFiles primaryFiles e1 e2 :
  NoDup (essentialCandidate allFiles primaryFiles e1 e2).
Proof.
  unfold essentialCandidate. destruct (List.find _ allFiles); [|constructor].
  destruct (_ && _); [apply NoDup_singleton|constructor].
Qed.

Lemma endsWith_same_length x a b :
  endsWith x a = true → endsWith x b = true → length a = length b → a = b.
Proof. rewrite !endsWith_suffix. apply suffix_same_length. Qed.

(** The three kinds of essential file end differently, so no path can be
    picked twice. *)
Lemma essential_app_not_config x :
  endsWith x (lit "App.jsx") = true ∨ endsWith x (lit "App.tsx") = true →
  endsWith x (lit "tailwind.config.js") = true
  ∨ endsWith x (lit "tailwind.config.ts") = true
  ∨ endsWith x (lit "index.css") = true
  ∨ endsWith x (lit "globals.css") = true →
  False.
Proof.
  intros HA HB.
  assert (endsWith x (lit "x") = true) as Hx.
  { destruct HA as [H|H].
    - by apply (endsWith_tail x (lit "App.js") (lit "x")).
    - by apply (endsWith_tail x (lit "App.ts") (lit "x")). }
  assert (endsWith x (lit "s") = true) as Hs.
  { destruct HB as [H|[H|[H|H]]].
    - by apply (endsWith_tail x (lit "tailwind.config.j") (lit "s")).
    - by apply (endsWith_tail x (lit "tailwind.config.t") (lit "s")).
    - by apply (endsWith_tail x (lit "index.cs") (lit "s")).
    - by apply (endsWith_tail x (lit "globals.cs") (lit "s")). }
  by pose proof (endsWith_same_length _ _ _ Hx Hs eq_refl).
Qed.

Lemma essential_config_not_css x :
  endsWith x (lit "tailwind.config.js") = true
  ∨ endsWith x (lit "tailwind.config.ts") = true →
  endsWith x (lit "index.css") = true ∨ endsWith x (lit "globals.css") = true →
  False.
Proof.
  intros HA HB.
  assert (endsWith x (lit "ss") = true) as Hss.
  { destruct HB as [H|H].
    - by apply (endsWith_tail x (lit "index.c") (lit "ss")).
    - by apply (endsWith_tail x (lit "globals.c") (lit "ss")). }
  destruct HA as [H|H].
  - apply (endsWith_tail x (lit "tailwind.config.") (lit "js")) in H.
    by pose proof (endsWith_same_length _ _ _ H Hss eq_refl).
  - apply (endsWith_tail x (lit "tailwind.config.") (lit "ts")) in H.
    by pose proof (endsWith_same_length _ _ _ H Hss eq_refl).
Qed.

Lemma NoDup_essentialFilesOf allFiles primaryFiles :
  NoDup (essentialFilesOf allFiles primaryFiles).
Proof.
  unfold essentialFilesOf. apply NoDup_app. split_and!.
  - apply NoDup_essentialCandidate.
  - intros x (_ & _ & _ & HA)%essentialCandidate_elem
             [(_ & _ & _ & HB)%essentialCandidate_elem
             |(_ & _ & _ & HB)%essentialCandidate_elem]%elem_of_app.
    + apply (essential_app_not_config x HA). tauto.
    + apply (essential_app_not_config x HA). tauto.
  - apply NoDup_app. split_and!; [apply NoDup_essentialCandidate| |apply NoDup_essentialCandidate].
    intros x (_ & _ & _ & HA)%essentialCandidate_elem
             (_ & _ & _ & HB)%essentialCandidate_elem.
    apply (essential_config_not_css x HA HB).
Qed.



End local_context.


(** ** Lookups that find nothing *)

Section absent.
Implicit Types (path k v : str) (o : list (list N * list N)).

Lemma foldl_setAdd_fresh (l ctx : list (list N)) :
  NoDup (ctx ++ l) → foldl setAdd ctx l = ctx ++ l.
Proof.
  revert ctx. induction l as [|a l IH]; intros ctx Hnd; simpl.
  - by rewrite app_nil_r.
  - assert (setAdd ctx a = ctx ++ [a]) as ->.
    { unfold setAdd. rewrite (proj2 (includes_false ctx a)); [done|].
      apply NoDup_app in Hnd as (_ & Hdisj & _). intros Hin.
      apply (Hdisj a Hin). by left. }
    rewrite IH; rewrite <-(assoc_L (++)); done.
Qed.

Lemma filter_none {A} (P : A → Prop) `{∀ x, Decision (P x)} (l : list A) :
  (∀ x, x ∈ l → ¬ P x) → filter P l = [].
Proof.
  induction l as [|a l IH]; intros Hl; [done|].
  rewrite filter_cons_False; [|apply Hl; by left].
  apply IH. intros x Hx. apply Hl. by right.
Qed.

Lemma foldl_unchanged {A} (step : list (list N) → A → list (list N))
    (l : list A) (ctx : list (list N)) :
  (∀ c a, a ∈ l → step c a = c) → foldl step ctx l = ctx.
Proof.
  revert ctx. induction l as [|a l IH]; intros ctx Hstep; [done|]. simpl.
  rewrite Hstep; [|by left]. apply IH. intros c b Hb. apply Hstep. by right.
Qed.

End absent.

Section plain_object.
Context {A B V : Type}.
Implicit Types (obj : gmap (list N) V) (k : str).

Lemma get_own obj k v :
  obj !! k = Some v → PlainObject.get obj k = PlainObject.Own v.
Proof. unfold PlainObject.get. by intros ->. Qed.

Lemma get_missing obj k :
  obj !! k = None → k ∉ PlainObject.inheritedNames →
  PlainObject.get obj k = PlainObject.Missing.
Proof.
  unfold PlainObject.get, PlainObject.getOwn. intros -> Hk.
  by rewrite bool_decide_eq_false_2.
Qed.

Lemma get_inherited obj k :
  obj !! k = None → k ∈ PlainObject.inheritedNames →
  PlainObject.get obj k = PlainObject.Inherited.
Proof.
  unfold PlainObject.get, PlainObject.getOwn. intros -> Hk.
  by rewrite bool_decide_eq_true_2.
Qed.

Lemma forEach_raised (body : B → A → PlainObject.Completion B) (l : list A) :
  foldl (λ acc a, PlainObject.andThen acc (λ b, body b a)) PlainObject.TypeError l
  = PlainObject.TypeError.
Proof. induction l as [|a l IH]; [done|]. by cbn [foldl PlainObject.andThen]. Qed.

Lemma forEach_cons (body : B → A → PlainObject.Completion B) start a (l : list A) :
  PlainObject.forEach body start (a :: l)
  = PlainObject.andThen (body start a) (λ b, PlainObject.forEach body b l).
Proof.
  unfold PlainObject.forEach. cbn [foldl PlainObject.andThen].
  destruct (body start a); [done|]. apply forEach_raised.
Qed.

Lemma forEach_app (body : B → A → PlainObject.Completion B) start (l1 l2 : list A) :
  PlainObject.forEach body start (l1 ++ l2)
  = PlainObject.andThen (PlainObject.forEach body start l1)
                        (λ b, PlainObject.forEach body b l2).
Proof.
  revert start. induction l1 as [|a l1 IH]; intros start; [done|].
  cbn [app]. rewrite !forEach_cons. destruct (body start a); [|done].
  cbn [PlainObject.andThen]. apply IH.
Qed.

(** An invariant of the loop holds of the value it ends with; when it
    throws, some element made the body throw. *)
Lemma forEach_inv (P : B → Prop) (Q : A → Prop)
    (body : B → A → PlainObject.Completion B) start (l : list A) :
  P start →
  (∀ b a, a ∈ l → P b →
     match body b a with
     | PlainObject.Normal b' => P b'
     | PlainObject.TypeError => Q a
     end) →
  match PlainObject.forEach body start l with
  | PlainObject.Normal b => P b
  | PlainObject.TypeError => ∃ a, a ∈ l ∧ Q a
  end.
Proof.
  revert start. induction l as [|a l IH]; intros start Hstart Hbody; [done|].
  rewrite forEach_cons. pose proof (Hbody start a ltac:(by left) Hstart) as Ha.
  destruct (body start a) as [b|]; cbn [PlainObject.andThen].
  - assert (∀ b0 a0, a0 ∈ l → P b0 →
              match body b0 a0 with
              | PlainObject.Normal b' => P b'
              | PlainObject.TypeError => Q a0
              end) as Hrest.
    { intros b0 a0 Ha0. apply Hbody. by right. }
    specialize (IH b Ha Hrest).
    destruct (PlainObject.forEach body b l); [done|].
    destruct IH as (x & Hx & HQ). exists x. split; [by right|done].
  - exists a. split; [by left|done].
Qed.

End plain_object.

(** C8.  A lookup that finds no own key is not always skipped.  The one
    file of [formatterManifest] has a component called [toString], a name
    the component tree does not have: [buildLocalContext] with that file
    as primary file throws.  The manifest has no path [constructor]:
    [getFileContents] asked for it returns an object with the key
    [constructor], holding [undefined]. *)
Theorem absent_lookups_reach_object_prototype :
  (componentTree formatterManifest !! lit "toString" = None
   ∧ PlainObject.buildLocalContext
       [lit "/home/user/app/src/utils/toString.js"] formatterManifest
       [lit "/home/user/app/src/utils/toString.js"]
     = PlainObject.TypeError)
  ∧ (files formatterManifest !! lit "constructor" = None
     ∧ PlainObject.getFileContents [lit "constructor"] formatterManifest
       = [(lit "constructor", None)]).
Proof. split; split; vm_compute; reflexivity. Qed.

(** ** File bodies in the prompt *)

Section bodies.
Implicit Types (content path sep x : str) (l : list str).






End bodies.


(** ** The bounded message log *)

Section log.
Implicit Types (cs : ConversationState) (calls : list MemoryCall).

Lemma length_sliceLast {A} (k : nat) (l : list A) :
  length (sliceLast k l) = length l `min` k.
Proof. unfold sliceLast. rewrite length_drop. lia. Qed.

Lemma logOf_update now cs u ai :
  logOf (updateConversationMemory now cs u ai)
  = if decide (20 < length (appendedMessages now cs u ai))
    then sliceLast 15 (appendedMessages now cs u ai)
    else appendedMessages now cs u ai.
Proof.
  unfold logOf, updateConversationMemory, appendedMessages.
  destruct ai as [response|]; cbn -[sliceLast].
  - rewrite <-(assoc_L (++)). cbn -[sliceLast]. by destruct (decide _).
  - by destruct (decide _).
Qed.

Lemma applyCalls_snoc cs calls c :
  applyCalls cs (calls ++ [c]) = applyCall (applyCalls cs calls) c.
Proof. unfold applyCalls. by rewrite foldl_app. Qed.

Lemma applyCalls_step cs calls k c :
  calls !! k = Some c →
  applyCalls cs (take (S k) calls) = applyCall (applyCalls cs (take k calls)) c.
Proof.
  intros Hk. by rewrite (take_S_r _ _ _ Hk), applyCalls_snoc.
Qed.

End log.

(** C2.  After a call of [updateConversationMemory] the log is the appended
    log when that has at most 20 messages, and exactly its 15 most recent
    messages when it has more; so the log never has more than 20 messages
    after a call.  The trimming at request start does the same to the log
    it finds.  In every run of calls (of 25 appends, or of any length), the
    call that takes the log past 20 leaves exactly 15 messages. *)
Theorem message_log_bounded (cs : ConversationState) :
  (∀ now u ai,
     let appended := appendedMessages now cs u ai in
     let after := logOf (updateConversationMemory now cs u ai) in
     (20 < length appended → after = drop (length appended - 15) appended
                              ∧ length after = 15)
     ∧ (length appended ≤ 20 → after = appended)
     ∧ length after ≤ 20)
  ∧ ((20 < length (logOf cs) →
        logOf (trimAtRequestStart cs) = drop (length (logOf cs) - 15) (logOf cs)
        ∧ length (logOf (trimAtRequestStart cs)) = 15)
     ∧ (length (logOf cs) ≤ 20 → trimAtRequestStart cs = cs)
     ∧ length (logOf (trimAtRequestStart cs)) ≤ 20)
  ∧ (∀ calls k c,
       calls !! k = Some c →
       let before := applyCalls cs (take k calls) in
       let after := applyCalls cs (take (S k) calls) in
       length (logOf after) ≤ 20
       ∧ (20 < length (appendedMessages (call_now c) before
                         (call_userMessage c) (call_aiResponse c)) →
          length (logOf after) = 15)).
Proof.
  assert (∀ now s u ai,
            let appended := appendedMessages now s u ai in
            let after := logOf (updateConversationMemory now s u ai) in
            (20 < length appended → after = drop (length appended - 15) appended
                                     ∧ length after = 15)
            ∧ (length appended ≤ 20 → after = appended)
            ∧ length after ≤ 20) as Hstep.
  { intros now s u ai appended after. subst after. rewrite logOf_update.
    fold appended. destruct (decide (20 < length appended)) as [Hlong|Hshort].
    - pose proof (length_sliceLast 15 appended) as Hlen.
      split_and!; [intros _; split; [done|lia]|lia|lia].
    - split_and!; [lia|done|lia]. }
  split_and!.
  - intros now u ai. apply Hstep.
  - intros Hlong. unfold trimAtRequestStart, logOf in *.
    rewrite decide_True by done. cbn -[sliceLast].
    split; [done|]. rewrite length_sliceLast. lia.
  - intros Hshort. unfold trimAtRequestStart, logOf in *.
    rewrite decide_False; [done|lia].
  - unfold trimAtRequestStart, logOf.
    destruct (decide _) as [Hlong|Hshort]; cbn -[sliceLast]; [|lia].
    rewrite length_sliceLast. lia.
  - intros calls k c Hk before after. subst before after.
    rewrite (applyCalls_step _ _ _ _ Hk). unfold applyCall.
    destruct (Hstep (call_now c) (applyCalls cs (take k calls))
                (call_userMessage c) (call_aiResponse c)) as (Hlong & _ & Hle).
    split; [exact Hle|]. intros Hcross. by apply Hlong.
Qed.

(** ** The session summary *)

Section summary.
Implicit Types (s : SessionSummary) (cs : ConversationState).

Lemma summaryGrows_refl s : summaryGrows s s.
Proof. by repeat split. Qed.

Lemma summaryGrows_trans s1 s2 s3 :
  summaryGrows s1 s2 → summaryGrows s2 s3 → summaryGrows s1 s3.
Proof.
  intros (?&?&?&?) (?&?&?&?). repeat split; by etrans.
Qed.

Lemma recordAppliedFile_grows s file :
  totalInteractions (recordAppliedFile s file) = totalInteractions s
  ∧ summaryGrows s (recordAppliedFile s file).
Proof.
  unfold recordAppliedFile. cbv zeta.
  destruct (bool_decide (af_action file = created)
            && negb (includes (filesCreated s) (af_path file))).
  - destruct (af_componentName file) as [componentName|].
    + destruct (truthy componentName && negb (includes _ componentName)).
      * split; [done|]. repeat split; simpl; try done; by apply prefix_app_r.
      * split; [done|]. repeat split; simpl; try done; by apply prefix_app_r.
    + split; [done|]. repeat split; simpl; try done; by apply prefix_app_r.
  - destruct (bool_decide (af_action file = modified)
              && negb (includes (filesModified s) (af_path file))).
    + split; [done|]. repeat split; simpl; try done; by apply prefix_app_r.
    + split; [done|apply summaryGrows_refl].
Qed.

Lemma recordPackage_grows s pkg :
  totalInteractions (recordPackage s pkg) = totalInteractions s
  ∧ summaryGrows s (recordPackage s pkg).
Proof.
  unfold recordPackage. destruct (negb (includes (packagesAdded s) pkg)).
  - split; [done|]. repeat split; simpl; try done; by apply prefix_app_r.
  - split; [done|apply summaryGrows_refl].
Qed.

Lemma foldl_grows {A} (step : SessionSummary → A → SessionSummary) (l : list A) s :
  (∀ s' a, totalInteractions (step s' a) = totalInteractions s'
           ∧ summaryGrows s' (step s' a)) →
  totalInteractions (foldl step s l) = totalInteractions s
  ∧ summaryGrows s (foldl step s l).
Proof.
  intros Hstep. revert s. induction l as [|a l IH]; intros s; simpl.
  - split; [done|apply summaryGrows_refl].
  - destruct (IH (step s a)) as [Htot Hgrow]. destruct (Hstep s a) as [Htot' Hgrow'].
    split; [congruence|by eapply summaryGrows_trans].
Qed.

Lemma updateSessionSummary_grows (current : option SessionSummary) response :
  let before := match current with Some s => s | None => emptySummary end in
  totalInteractions (updateSessionSummary current response)
  = (totalInteractions before + 1)%Z
  ∧ summaryGrows before (updateSessionSummary current response).
Proof.
  intros before. unfold updateSessionSummary. fold before. cbv zeta.
  set (s1 := countInteraction before (ar_actionSummary response)).
  assert (totalInteractions s1 = (totalInteractions before + 1)%Z
          ∧ summaryGrows before s1) as [Ht1 Hg1].
  { split; [done|]. unfold summaryGrows, s1. by simpl. }
  set (s2 := match ar_appliedFiles response with
             | Some appliedFiles => foldl recordAppliedFile s1 appliedFiles
             | None => s1
             end).
  assert (totalInteractions s2 = totalInteractions s1 ∧ summaryGrows s1 s2)
    as [Ht2 Hg2].
  { subst s2. destruct (ar_appliedFiles response).
    - apply foldl_grows, recordAppliedFile_grows.
    - split; [done|apply summaryGrows_refl]. }
  destruct (ar_packagesToInstall response) as [pkgs|].
  - destruct (foldl_grows recordPackage pkgs s2 recordPackage_grows) as [Ht3 Hg3].
    split; [congruence|]. eapply summaryGrows_trans; [|exact Hg3].
    by eapply summaryGrows_trans.
  - split; [congruence|by eapply summaryGrows_trans].
Qed.

Lemma applyCall_summary cs c :
  totalOf (applyCall cs c)
  = (totalOf cs + match call_aiResponse c with Some _ => 1 | None => 0 end)%Z
  ∧ summaryGrows (summaryOf cs) (summaryOf (applyCall cs c)).
Proof.
  unfold applyCall, updateConversationMemory, totalOf, summaryOf.
  destruct (call_aiResponse c) as [response|]; cbv zeta.
  - destruct (updateSessionSummary_grows (sessionSummary (context cs)) response)
      as [Htot Hgrow].
    destruct (decide _); cbn; (split; [|exact Hgrow]);
      rewrite Htot; by destruct (sessionSummary (context cs)).
  - destruct (decide _); cbn.
    + split; [lia|apply summaryGrows_refl].
    + split; [lia|apply summaryGrows_refl].
Qed.

End summary.

(** C3.  Over any run of [updateConversationMemory] calls, the interaction
    count grows by one for each call that carries an AI result and by
    nothing for a call with a user message alone, and each of the lists
    [filesCreated], [filesModified], [packagesAdded], [componentsCreated]
    only grows at its end: what the lists held before the run is still
    there, in place, after it, whatever the clean-up did to the log. *)
Theorem session_summary_monotone (cs : ConversationState) (calls : list MemoryCall) :
  totalOf (applyCalls cs calls) = (totalOf cs + Z.of_nat (callsWithResult calls))%Z
  ∧ (totalOf cs ≤ totalOf (applyCalls cs calls))%Z
  ∧ summaryGrows (summaryOf cs) (summaryOf (applyCalls cs calls))
  ∧ (∀ now u response,
       totalOf (updateConversationMemory now cs u (Some response))
       = (totalOf cs + 1)%Z)
  ∧ (∀ now u, totalOf (updateConversationMemory now cs u None) = totalOf cs).
Proof.
  assert (totalOf (applyCalls cs calls)
          = (totalOf cs + Z.of_nat (callsWithResult calls))%Z
          ∧ summaryGrows (summaryOf cs) (summaryOf (applyCalls cs calls)))
    as [Htot Hgrow].
  { unfold applyCalls, callsWithResult. revert cs.
    induction calls as [|c calls IH]; intros cs.
    - simpl. split; [lia|apply summaryGrows_refl].
    - cbn [foldl]. destruct (IH (applyCall cs c)) as [Htot Hgrow].
      destruct (applyCall_summary cs c) as [Htot' Hgrow'].
      split; [|by eapply summaryGrows_trans].
      rewrite Htot, Htot'. destruct (call_aiResponse c) as [response|] eqn:Hai.
      + rewrite filter_cons_True by (rewrite Hai; by eexists). simpl length. lia.
      + rewrite filter_cons_False; [lia|]. rewrite Hai. by intros [? ?]. }
  split_and!; [done|lia|done| |].
  - intros now u response.
    pose proof (applyCall_summary cs
      {| call_now := now; call_userMessage := u; call_aiResponse := Some response |})
      as [H _]. exact H.
  - intros now u.
    pose proof (applyCall_summary cs
      {| call_now := now; call_userMessage := u; call_aiResponse := None |})
      as [H _]. unfold applyCall in H. simpl in H. lia.
Qed.

(** ** The history digest *)

(** C4.  On the log [U1, A1, U2, A2], pairing each user message with the
    assistant message that follows it gives [U1] with [A1] and [U2] with
    [A2].  [getRecentInteractions] scans backward and hands a user message
    the assistant message met next, which is the one before it in the log:
    it returns [U1] with no reply and [U2] with [A1], and [A2] is in no
    pair. *)
Theorem getRecentInteractions_pairs_with_earlier_reply :
  let u1 := plainMessage "msg-1" user "add a hero section" 1000 in
  let a1 := plainMessage "ai-1" assistant "Created Hero.jsx" 2000 in
  let u2 := plainMessage "msg-2" user "make the button blue" 3000 in
  let a2 := plainMessage "ai-2" assistant "Updated Hero.jsx" 4000 in
  getRecentInteractions [u1; a1; u2; a2] 5
  = [ {| userMessage := u1; aiMessage := None |};
      {| userMessage := u2; aiMessage := Some a1 |} ]
  ∧ recentPairsAsDescribed [u1; a1; u2; a2] 5
    = [ {| userMessage := u1; aiMessage := Some a1 |};
        {| userMessage := u2; aiMessage := Some a2 |} ].
Proof. vm_compute. done. Qed.

(** C10.  [buildConversationHistoryPrompt] returns the empty string when
    there is no conversation state, and when the log of the state holds at
    most one message, whatever the summary, the topic and the change log
    hold. *)
Theorem buildConversationHistoryPrompt_empty
    (host : Host) (now : Z) (conversationState : option ConversationState) :
  match conversationState with
  | None => True
  | Some cs => length (messages (context cs)) ≤ 1
  end →
  buildConversationHistoryPrompt host now conversationState = [].
Proof.
  unfold buildConversationHistoryPrompt.
  destruct conversationState as [cs|]; [|done].
  intros Hlen. by rewrite decide_True.
Qed.

Lemma buildConversationHistoryPrompt_empty_witness :
  length (messages (context oneMessageState)) ≤ 1
  ∧ buildConversationHistoryPrompt plainHost 5000 (Some oneMessageState) = [].
Proof.
  split.
  - simpl. lia.
  - apply (buildConversationHistoryPrompt_empty plainHost 5000 (Some oneMessageState)).
    simpl. lia.
Defined.

(** C6.  The text [buildConversationHistoryPrompt] returns has at most 2000
    characters plus the 47 of the truncation notice.  When the text before
    the cap has more than 2000 characters the result is its first 2000
    characters followed by the notice; when it has at most 2000 the result
    is that text, without the notice. *)
Theorem buildConversationHistoryPrompt_capped
    (host : Host) (now : Z) (conversationState : option ConversationState) :
  length truncationNotice = 47
  ∧ length (buildConversationHistoryPrompt host now conversationState)
    ≤ 2000 + length truncationNotice
  ∧ (2000 < length (uncappedHistoryPrompt host now conversationState) →
       buildConversationHistoryPrompt host now conversationState
       = take 2000 (uncappedHistoryPrompt host now conversationState)
         ++ truncationNotice)
  ∧ (length (uncappedHistoryPrompt host now conversationState) ≤ 2000 →
       buildConversationHistoryPrompt host now conversationState
       = uncappedHistoryPrompt host now conversationState).
Proof.
  assert (length truncationNotice = 47) as Hnotice by reflexivity.
  unfold buildConversationHistoryPrompt, uncappedHistoryPrompt, digestLimit.
  destruct conversationState as [cs|].
  - destruct (decide (length (messages (context cs)) ≤ 1)).
    + split_and!; [done|simpl; lia|simpl; lia|done].
    + destruct (decide (2000 < length (untruncatedDigest host now cs))).
      * split_and!; [done| |done|lia].
        rewrite length_app, length_take. lia.
      * split_and!; [done|lia|lia|done].
  - split_and!; [done|simpl; lia|simpl; lia|done].
Qed.

(** ** Target selection *)

Section selection.
Implicit Types (a b c : str) (r : SearchResult) (results : list SearchResult).












End selection.



(** ** Worked examples *)

Example resolve_sibling :
  resolveImportPath (lit "/a/b/C.jsx") (lit "./D") [lit "/a/b/D.tsx"; lit "/a/b/D.jsx"]
  = Some (lit "/a/b/D.jsx").
Proof. vm_compute. reflexivity. Qed.

Example resolve_parent :
  resolveImportPath (lit "/a/b/C.jsx") (lit "../E") [lit "/a/E.ts"; lit "/a/b/E.jsx"]
  = Some (lit "/a/E.ts").
Proof. vm_compute. reflexivity. Qed.

Example resolve_directory :
  resolveImportPath (lit "/a/b/C.jsx") (lit "./ui/") [lit "/a/b/ui/index.js"]
  = Some (lit "/a/b/ui/index.js").
Proof. vm_compute. reflexivity. Qed.

Example resolve_bare :
  resolveImportPath (lit "/a/b/C.jsx") (lit "react") [lit "/a/b/react.jsx"] = None.
Proof. vm_compute. reflexivity. Qed.

Example resolve_missing :
  resolveImportPath (lit "/a/b/C.jsx") (lit "./D") [lit "/a/D.jsx"] = None.
Proof. vm_compute. reflexivity. Qed.

(** With [Header.jsx] as the primary file: the entry component and the
    stylesheet come first, the unresolvable [./Logo] import and the missing
    [Logo] node add nothing, and [Header.jsx] itself is not listed. *)
Example scenario_context :
  buildLocalContext [lit "/home/user/app/src/components/Header.jsx"]
                    scenarioManifest scenarioPaths
  = [lit "/home/user/app/src/App.jsx"; lit "/home/user/app/src/index.css"].
Proof. vm_compute. reflexivity. Qed.

Example scenario_context_from_app :
  buildLocalContext [lit "/home/user/app/src/App.jsx"] scenarioManifest scenarioPaths
  = [lit "/home/user/app/src/index.css";
     lit "/home/user/app/src/components/Header.jsx";
     lit "/home/user/app/src/components/Footer.jsx"].
Proof. vm_compute. reflexivity. Qed.

Example scenario_contents :
  PlainObject.getFileContents
    [lit "/home/user/app/src/components/Footer.jsx";
     lit "/home/user/app/src/components/Logo.jsx"] scenarioManifest
  = [(lit "/home/user/app/src/components/Footer.jsx", Some (lit "<footer />"))].
Proof. vm_compute. reflexivity. Qed.

(** Paths that are array indices come first in [Object.entries], in numeric
    order, whatever the order of the request. *)
Example numbered_contents :
  PlainObject.getFileContents [lit "b.js"; lit "10"; lit "2"] numberedManifest
  = [(lit "b.js", Some (lit "b")); (lit "10", Some (lit "ten"));
     (lit "2", Some (lit "two"))].
Proof. vm_compute. reflexivity. Qed.

Example numbered_entries :
  PlainObject.entries
    (PlainObject.getFileContents [lit "b.js"; lit "10"; lit "2"] numberedManifest)
  = [(lit "2", Some (lit "two")); (lit "10", Some (lit "ten"));
     (lit "b.js", Some (lit "b"))].
Proof. vm_compute. reflexivity. Qed.

(** The component [toString] of [formatterManifest] has no tree node. *)
Example formatter_relationships :
  PlainObject.buildComponentRelationships
    [lit "/home/user/app/src/utils/toString.js"] formatterManifest
  = PlainObject.TypeError.
Proof. vm_compute. reflexivity. Qed.

(** Equal scores on the same line: the lexically smaller path is chosen. *)
Example same_line_target :
  selectTargetFile
    [ {| filePath := lit "/src/Header.jsx"; lineNumber := 7;
         lineContent := lit "bg-blue-500"; score := 80;
         matchedTerm := lit "bg-blue-500" |};
      {| filePath := lit "/src/Footer.jsx"; lineNumber := 7;
         lineContent := lit "bg-blue-500"; score := 80;
         matchedTerm := lit "bg-blue-500" |} ] UPDATE_STYLE
  = Some {| filePath := lit "/src/Footer.jsx"; lineNumber := 7;
            lineContent := lit "bg-blue-500"; score := 80;
            matchedTerm := lit "bg-blue-500" |}.
Proof. vm_compute. reflexivity. Qed.

(** Twenty-five appends to an empty log: the twenty-first takes the log to
    fifteen messages, and four more leave nineteen. *)
Example appends_20 :
  length (logOf (applyCalls (freshConversationState 0) (userOnlyCalls 20))) = 20.
Proof. vm_compute. reflexivity. Qed.

Example appends_21 :
  length (logOf (applyCalls (freshConversationState 0) (userOnlyCalls 21))) = 15.
Proof. vm_compute. reflexivity. Qed.

Example appends_25 :
  length (logOf (applyCalls (freshConversationState 0) (userOnlyCalls 25))) = 19.
Proof. vm_compute. reflexivity. Qed.

Example context_body_cut :
  length (truncatedContent (replicate 2001 120%N)) = 2038
  ∧ truncatedContent (replicate 2000 120%N) = replicate 2000 120%N.
Proof. vm_compute. done. Qed.


(** * Further properties of the code *)

(** ** Import resolution and local context *)

Section resolution_shape.
Implicit Types (s p : str) (allFiles : list str).

Lemma collapseSlashes_cons c s :
  collapseSlashes (c :: s)
  = if decide (c = slash) then
      match s with
      | c' :: _ => if decide (c' = slash) then collapseSlashes s
                   else c :: collapseSlashes s
      | [] => [c]
      end
    else c :: collapseSlashes s.
Proof. by destruct s. Qed.

Lemma collapseSlashes_head s c : head (collapseSlashes (c :: s)) = Some c.
Proof.
  revert c. induction s as [|c' s IH]; intros c; rewrite collapseSlashes_cons.
  - by destruct (decide (c = slash)).
  - destruct (decide (c = slash)) as [->|?]; [|done].
    destruct (decide (c' = slash)) as [->|?]; [apply IH|done].
Qed.

Lemma startsWith_double_slash c s :
  startsWith (c :: s) (lit "//") = true → c = slash ∧ head s = Some slash.
Proof.
  unfold startsWith. rewrite bool_decide_eq_true.
  destruct s as [|c' s]; [done|]. intros [= -> ->]. done.
Qed.

Lemma collapseSlashes_no_double s : strIncludes (collapseSlashes s) (lit "//") = false.
Proof.
  induction s as [|c s IH]; [done|]. rewrite collapseSlashes_cons.
  destruct (decide (c = slash)) as [->|Hc].
  - destruct s as [|c' s]; [done|].
    destruct (decide (c' = slash)) as [->|Hc']; [exact IH|].
    cbn [strIncludes]. rewrite IH, orb_false_r.
    apply not_true_is_false. intros [_ Hhead]%startsWith_double_slash.
    rewrite collapseSlashes_head in Hhead. by simplify_eq.
  - cbn [strIncludes]. rewrite IH, orb_false_r.
    apply not_true_is_false. by intros [? _]%startsWith_double_slash.
Qed.

Lemma firstExisting_found possiblePaths allFiles p :
  firstExisting possiblePaths allFiles = Some p →
  p ∈ allFiles ∧ ∃ q, q ∈ possiblePaths ∧ p = collapseSlashes q.
Proof.
  induction possiblePaths as [|c cs IH]; cbn [firstExisting]; [done|].
  destruct (includes allFiles (collapseSlashes c)) eqn:Hin.
  - intros [= <-]. split; [by apply includes_true|]. exists c. split; [by left|done].
  - intros (Hp & q & Hq & ->)%IH. split; [done|]. exists q. split; [by right|done].
Qed.

Lemma possiblePathsOf_rooted fromFile importSource q :
  q ∈ possiblePathsOf fromFile importSource → ∃ rest, q = slash :: rest.
Proof.
  unfold possiblePathsOf, resolvePath. cbv zeta.
  set (body := join (lit "/") _).
  destruct (endsWith importSource (lit "/")).
  - rewrite !elem_of_cons. intros [->|[->|[->|[->|?%elem_of_nil]]]]; [| | | |done];
      by eexists.
  - destruct (existsb _ possibleExtensions).
    + intros ->%list_elem_of_singleton. by eexists.
    + intros (ext & -> & _)%list_elem_of_fmap. by eexists.
Qed.

Lemma resolveImportPath_found fromFile importSource allFiles p :
  resolveImportPath fromFile importSource allFiles = Some p →
  startsWith importSource (lit ".") = true
  ∧ p ∈ allFiles
  ∧ startsWith p (lit "/") = true
  ∧ strIncludes p (lit "//") = false.
Proof.
  unfold resolveImportPath.
  destruct (startsWith importSource (lit ".")); cbn [negb]; [|done].
  intros (Hin & q & Hq & ->)%firstExisting_found.
  split_and!; [done|done| |apply collapseSlashes_no_double].
  apply possiblePathsOf_rooted in Hq as [rest ->].
  pose proof (collapseSlashes_head rest slash) as Hhead.
  destruct (collapseSlashes (slash :: rest)) as [|c l]; [done|].
  simpl in Hhead. by simplify_eq.
Qed.

End resolution_shape.

(** X1.  Whatever [resolveImportPath] returns is one of [allFiles], begins
    with a slash and has no two slashes in a row, and the specifier began
    with a dot. *)
Theorem resolveImportPath_result_shape
    (fromFile importSource p : list N) (allFiles : list (list N)) :
  resolveImportPath fromFile importSource allFiles = Some p →
  startsWith importSource (lit ".") = true
  ∧ p ∈ allFiles
  ∧ startsWith p (lit "/") = true
  ∧ strIncludes p (lit "//") = false.
Proof. apply resolveImportPath_found. Qed.

Lemma resolveImportPath_result_shape_witness :
  resolveImportPath (lit "/C.jsx") (lit "./ui/") [lit "/ui/index.ts"]
  = Some (lit "/ui/index.ts")
  ∧ lit "/ui/index.ts" ∈ [lit "/ui/index.ts"].
Proof.
  split; [reflexivity|].
  apply (resolveImportPath_result_shape (lit "/C.jsx") (lit "./ui/")
           (lit "/ui/index.ts") [lit "/ui/index.ts"]).
  reflexivity.
Defined.

Section context_origin.
Implicit Types (x f : str) (ctx primaryFiles allFiles : list str).

Lemma Forall_setAdd (P : list N → Prop) ctx x :
  Forall P ctx → P x → Forall P (setAdd ctx x).
Proof.
  intros Hctx Hx. unfold setAdd. destruct (includes ctx x); [done|].
  apply Forall_app. split; [done|]. by apply Forall_singleton.
Qed.

Lemma Forall_foldl_setAdd (P : list N → Prop) (l : list (list N)) ctx :
  Forall P l → Forall P ctx → Forall P (foldl setAdd ctx l).
Proof.
  revert ctx. induction l as [|a l IH]; intros ctx Hl Hctx; [done|].
  apply Forall_cons in Hl as [Ha Hl]. simpl. apply IH; [done|].
  by apply Forall_setAdd.
Qed.

Lemma essentialFilesOf_listed allFiles primaryFiles :
  Forall (λ x, x ∈ allFiles) (essentialFilesOf allFiles primaryFiles).
Proof.
  apply Forall_forall. intros x. unfold essentialFilesOf. rewrite !elem_of_app.
  intros [H|[H|H]]; by apply essentialCandidate_elem in H as (_ & _ & ? & _).
Qed.

Lemma length_essentialCandidate allFiles primaryFiles e1 e2 :
  length (essentialCandidate allFiles primaryFiles e1 e2) ≤ 1.
Proof.
  unfold essentialCandidate. destruct (List.find _ allFiles); [|simpl; lia].
  destruct (_ && _); simpl; lia.
Qed.



End context_origin.

Section plain_context.
Implicit Types (x f name : str) (ctx primaryFiles allFiles : list str).
Implicit Types (c : list (option (list N))) (manifest : FileManifest).

Lemma includesValue_Some ctx x :
  PlainObject.includesValue (Some <$> ctx) (Some x) = includes ctx x.
Proof.
  unfold PlainObject.includesValue, includes. apply bool_decide_ext.
  rewrite list_elem_of_fmap. split.
  - by intros (y & [= ->] & Hy).
  - intros Hx. by exists x.
Qed.

Lemma setAdd_Some ctx x :
  PlainObject.setAdd (Some <$> ctx) (Some x) = Some <$> setAdd ctx x.
Proof.
  unfold PlainObject.setAdd, setAdd. rewrite includesValue_Some.
  destruct (includes ctx x); [done|]. by rewrite fmap_app.
Qed.

Lemma foldl_Some {A} (step' : list (option (list N)) → A → list (option (list N)))
    (step : list (list N) → A → list (list N)) (l : list A) ctx :
  (∀ ctx' a, a ∈ l → step' (Some <$> ctx') a = Some <$> step ctx' a) →
  foldl step' (Some <$> ctx) l = Some <$> foldl step ctx l.
Proof.
  revert ctx. induction l as [|a l IH]; intros ctx Hstep; [done|]. cbn [foldl].
  rewrite Hstep by (by left). apply IH. intros ctx' a' Ha'. apply Hstep. by right.
Qed.

Lemma foldl_setAdd_Some (l : list (list N)) ctx :
  foldl PlainObject.setAdd (Some <$> ctx) (Some <$> l) = Some <$> foldl setAdd ctx l.
Proof.
  revert ctx. induction l as [|a l IH]; intros ctx; [done|].
  rewrite fmap_cons. cbn [foldl]. rewrite setAdd_Some. apply IH.
Qed.

Lemma filter_essential_Some (essentialFiles : list (list N)) ctx :
  filter (λ entry, PlainObject.includesValue (Some <$> essentialFiles) entry = false)
         (Some <$> ctx)
  = Some <$> filter (λ path, includes essentialFiles path = false) ctx.
Proof.
  induction ctx as [|a ctx IH]; [done|]. rewrite fmap_cons.
  destruct (includes essentialFiles a) eqn:Ha.
  - rewrite !filter_cons_False; [done| |].
    + by rewrite Ha.
    + by rewrite includesValue_Some, Ha.
  - rewrite !filter_cons_True; [|done|].
    + by rewrite fmap_cons, IH.
    + by rewrite includesValue_Some.
Qed.

Lemma addImport_Some primaryFiles allFiles f ctx (importInfo : ImportInfo) :
  PlainObject.addImport primaryFiles allFiles f (Some <$> ctx) importInfo
  = Some <$> addImport primaryFiles allFiles f ctx importInfo.
Proof.
  unfold PlainObject.addImport, addImport. destruct (_ && _); [|done].
  destruct (resolveImportPath _ _ _); [|done]. destruct (_ && _); [|done].
  apply setAdd_Some.
Qed.

Lemma addComponent_Some manifest primaryFiles ctx name :
  name ∉ PlainObject.inheritedNames →
  PlainObject.addComponent manifest primaryFiles (Some <$> ctx) name
  = Some <$> addComponent manifest primaryFiles ctx name.
Proof.
  intros Hname. unfold PlainObject.addComponent, addComponent.
  destruct (componentTree manifest !! name) as [node|] eqn:Hnode.
  - rewrite (get_own _ _ _ Hnode). destruct (negb _); [apply setAdd_Some|done].
  - by rewrite (get_missing _ _ Hnode Hname).
Qed.

Lemma addLocalContext_Some manifest primaryFiles allFiles ctx f :
  plainNames manifest →
  PlainObject.addLocalContext manifest primaryFiles allFiles (Some <$> ctx) f
  = PlainObject.Normal (Some <$> addLocalContext manifest primaryFiles allFiles ctx f).
Proof.
  intros [Hfiles Htree]. unfold PlainObject.addLocalContext, addLocalContext.
  destruct (files manifest !! f) as [fileInfo|] eqn:Hf.
  - rewrite (get_own _ _ _ Hf). cbv zeta.
    assert (match fi_imports fileInfo with
            | Some imports =>
                foldl (PlainObject.addImport primaryFiles allFiles f) (Some <$> ctx) imports
            | None => Some <$> ctx
            end
            = Some <$> match fi_imports fileInfo with
                       | Some imports =>
                           foldl (addImport primaryFiles allFiles f) ctx imports
                       | None => ctx
                       end) as ->.
    { destruct (fi_imports fileInfo); [|done]. apply foldl_Some.
      intros ctx' a _. apply addImport_Some. }
    pose proof (Hfiles _ _ Hf) as Hname. cbv beta in Hname.
    destruct (fi_componentInfo fileInfo) as [componentInfo|]; [|done].
    destruct (componentTree manifest !! ci_name componentInfo) as [treeNode|] eqn:Hnode.
    + rewrite (get_own _ _ _ Hnode). f_equal.
      pose proof (Htree _ _ Hnode) as Hnames. cbv beta in Hnames.
      apply Forall_app in Hnames as [HimportedBy Himports].
      rewrite (foldl_Some (PlainObject.addComponent manifest primaryFiles)
                          (addComponent manifest primaryFiles)
                          (tn_importedBy treeNode)).
      * apply foldl_Some. intros ctx' a Ha. apply addComponent_Some.
        by apply (proj1 (Forall_forall _ _) Himports).
      * intros ctx' a Ha. apply addComponent_Some.
        by apply (proj1 (Forall_forall _ _) HimportedBy).
    + by rewrite (get_missing _ _ Hnode Hname).
  - unfold PlainObject.get, PlainObject.getOwn. rewrite Hf.
    by destruct (bool_decide _).
Qed.

Lemma forEach_Some {A} (body : list (option (list N)) → A
                                → PlainObject.Completion (list (option (list N))))
    (step : list (list N) → A → list (list N)) (l : list A) ctx :
  (∀ ctx' a, a ∈ l →
     body (Some <$> ctx') a = PlainObject.Normal (Some <$> step ctx' a)) →
  PlainObject.forEach body (Some <$> ctx) l
  = PlainObject.Normal (Some <$> foldl step ctx l).
Proof.
  revert ctx. induction l as [|a l IH]; intros ctx Hbody; [done|].
  rewrite forEach_cons, Hbody by (by left). cbn [PlainObject.andThen foldl].
  apply IH. intros ctx' a' Ha'. apply Hbody. by right.
Qed.

Lemma Forall_plain_setAdd (P : option (list N) → Prop) c (entry : option (list N)) :
  Forall P c → P entry → Forall P (PlainObject.setAdd c entry).
Proof.
  intros Hc Hentry. unfold PlainObject.setAdd.
  destruct (PlainObject.includesValue c entry); [done|].
  apply Forall_app. split; [done|]. by apply Forall_singleton.
Qed.

Lemma Forall_foldl_elem {A E} (P : E → Prop) (step : list E → A → list E)
    (l : list A) (start : list E) :
  (∀ acc a, a ∈ l → Forall P acc → Forall P (step acc a)) →
  Forall P start → Forall P (foldl step start l).
Proof.
  revert start. induction l as [|a l IH]; intros start Hstep Hstart; [done|].
  cbn [foldl]. apply IH.
  - intros acc a' Ha'. apply Hstep. by right.
  - apply Hstep; [by left|done].
Qed.

End plain_context.

(** X2.  [buildLocalContext] offers at most three essential files, all taken
    from [allFiles].  When it returns, every path in the result is one of
    [allFiles] or the file of a node of the component tree, and the result
    holds [undefined] only if a node of the tree lists a name that is no key
    of the tree and is a member name of [Object.prototype].  When it throws,
    some primary file has a record whose component name is no key of the
    tree and is a member name of [Object.prototype]. *)
Theorem buildLocalContext_origin
    (primaryFiles : list (list N)) (manifest : FileManifest)
    (allFiles : list (list N)) :
  length (essentialFilesOf allFiles primaryFiles) ≤ 3
  ∧ Forall (λ path, path ∈ allFiles) (essentialFilesOf allFiles primaryFiles)
  ∧ match PlainObject.buildLocalContext primaryFiles manifest allFiles with
    | PlainObject.Normal result =>
        Forall (λ entry, match entry with
                         | Some path => path ∈ allFiles ∨ treeFile manifest path
                         | None => ∃ name, inheritedHit manifest name
                         end) result
    | PlainObject.TypeError =>
        ∃ primaryFile fileInfo componentInfo,
          primaryFile ∈ primaryFiles
          ∧ files manifest !! primaryFile = Some fileInfo
          ∧ fi_componentInfo fileInfo = Some componentInfo
          ∧ componentTree manifest !! ci_name componentInfo = None
          ∧ ci_name componentInfo ∈ PlainObject.inheritedNames
    end.
Proof.
  split_and!.
  - unfold essentialFilesOf. rewrite !length_app.
    pose proof (length_essentialCandidate allFiles primaryFiles
                  (lit "App.jsx") (lit "App.tsx")).
    pose proof (length_essentialCandidate allFiles primaryFiles
                  (lit "tailwind.config.js") (lit "tailwind.config.ts")).
    pose proof (length_essentialCandidate allFiles primaryFiles
                  (lit "index.css") (lit "globals.css")).
    lia.
  - apply essentialFilesOf_listed.
  - set (P := λ entry : option (list N),
                match entry with
                | Some path => path ∈ allFiles ∨ treeFile manifest path
                | None => ∃ name, inheritedHit manifest name
                end).
    set (Q := λ primaryFile : list N,
                ∃ fileInfo componentInfo,
                  files manifest !! primaryFile = Some fileInfo
                  ∧ fi_componentInfo fileInfo = Some componentInfo
                  ∧ componentTree manifest !! ci_name componentInfo = None
                  ∧ ci_name componentInfo ∈ PlainObject.inheritedNames).
    assert (Forall P (Some <$> essentialFilesOf allFiles primaryFiles)) as Hess.
    { apply Forall_fmap. eapply Forall_impl; [apply essentialFilesOf_listed|].
      intros x Hx. by left. }
    assert (∀ acc owner node name,
              componentTree manifest !! owner = Some node →
              name ∈ tn_importedBy node ++ tn_imports node →
              Forall P acc →
              Forall P (PlainObject.addComponent manifest primaryFiles acc name))
      as Hcomp.
    { intros acc owner node name Howner Hname Hacc. unfold PlainObject.addComponent.
      destruct (componentTree manifest !! name) as [found|] eqn:Hfound.
      - rewrite (get_own _ _ _ Hfound). destruct (negb _); [|done].
        apply Forall_plain_setAdd; [done|]. right. by exists name, found.
      - destruct (decide (name ∈ PlainObject.inheritedNames)) as [Hin|Hout].
        + rewrite (get_inherited _ _ Hfound Hin).
          apply Forall_plain_setAdd; [done|]. exists name.
          split_and!; [done|done|]. by exists owner, node.
        + by rewrite (get_missing _ _ Hfound Hout). }
    assert (Forall P (foldl PlainObject.setAdd []
                        (Some <$> essentialFilesOf allFiles primaryFiles))) as Hstart.
    { apply Forall_foldl_elem; [|constructor].
      intros acc a Ha Hacc. apply Forall_plain_setAdd; [done|].
      by apply (proj1 (Forall_forall _ _) Hess). }
    assert (∀ acc f, f ∈ primaryFiles → Forall P acc →
              match PlainObject.addLocalContext manifest primaryFiles allFiles acc f with
              | PlainObject.Normal acc' => Forall P acc'
              | PlainObject.TypeError => Q f
              end) as Hbody.
    { intros acc f _ Hacc. unfold PlainObject.addLocalContext.
      destruct (files manifest !! f) as [fileInfo|] eqn:Hf.
      - rewrite (get_own _ _ _ Hf). cbv zeta.
        assert (Forall P match fi_imports fileInfo with
                         | Some imports =>
                             foldl (PlainObject.addImport primaryFiles allFiles f)
                                   acc imports
                         | None => acc
                         end) as Hacc1.
        { destruct (fi_imports fileInfo); [|done].
          apply Forall_foldl_elem; [|done]. intros acc' importInfo _ Hacc'.
          unfold PlainObject.addImport. destruct (_ && _); [|done].
          destruct (resolveImportPath _ _ _) as [resolvedPath|] eqn:Hres; [|done].
          destruct (_ && _); [|done]. apply Forall_plain_setAdd; [done|]. left.
          by apply resolveImportPath_found in Hres as (_ & ? & _). }
        destruct (fi_componentInfo fileInfo) as [componentInfo|] eqn:Hci; [|done].
        destruct (componentTree manifest !! ci_name componentInfo) as [treeNode|]
          eqn:Hnode.
        + rewrite (get_own _ _ _ Hnode).
          apply Forall_foldl_elem.
          * intros acc' name Hname. apply (Hcomp _ _ _ _ Hnode).
            apply elem_of_app. by right.
          * apply Forall_foldl_elem; [|done].
            intros acc' name Hname. apply (Hcomp _ _ _ _ Hnode).
            apply elem_of_app. by left.
        + destruct (decide (ci_name componentInfo ∈ PlainObject.inheritedNames))
            as [Hin|Hout].
          * rewrite (get_inherited _ _ Hnode Hin). by exists fileInfo, componentInfo.
          * by rewrite (get_missing _ _ Hnode Hout).
      - unfold PlainObject.get, PlainObject.getOwn. rewrite Hf.
        by destruct (bool_decide _). }
    pose proof (forEach_inv (Forall P) Q _ _ _ Hstart Hbody) as Hloop.
    unfold PlainObject.buildLocalContext, PlainObject.contextSetOf. cbv zeta.
    revert Hloop.
    destruct (PlainObject.forEach _ _ primaryFiles) as [contextFiles|];
      cbn [PlainObject.andThen]; intros Hloop.
    + apply Forall_app. split; [done|].
      apply Forall_forall. intros x [_ Hx]%list_elem_of_filter.
      by apply (proj1 (Forall_forall _ _) Hloop).
    + destruct Hloop as (f & Hf & fileInfo & componentInfo & Hrest).
      by exists f, fileInfo, componentInfo.
Qed.

(** X22.  A lookup that finds neither an own key nor a member of
    [Object.prototype] is skipped.  In [buildLocalContext], a primary file
    that is no key of [manifest.files] leaves the context set as it is; a
    primary file whose component name is not found in the tree adds what its
    imports add and nothing else; a listed component name that is not found
    adds nothing; an import that does not resolve adds nothing; and when no
    primary file is a key of [manifest.files] the result is the essential
    files. *)
Theorem missing_lookups_are_skipped
    (manifest : FileManifest) (primaryFiles allFiles : list (list N)) :
  (∀ (contextFiles : list (option (list N))) (primaryFile : list N),
     files manifest !! primaryFile = None →
     PlainObject.addLocalContext manifest primaryFiles allFiles contextFiles primaryFile
     = PlainObject.Normal contextFiles)
  ∧ (∀ (contextFiles : list (option (list N))) (primaryFile : list N)
       fileInfo componentInfo,
       files manifest !! primaryFile = Some fileInfo →
       fi_componentInfo fileInfo = Some componentInfo →
       componentTree manifest !! ci_name componentInfo = None →
       ci_name componentInfo ∉ PlainObject.inheritedNames →
       PlainObject.addLocalContext manifest primaryFiles allFiles contextFiles primaryFile
       = PlainObject.Normal
           match fi_imports fileInfo with
           | Some imports =>
               foldl (PlainObject.addImport primaryFiles allFiles primaryFile)
                     contextFiles imports
           | None => contextFiles
           end)
  ∧ (∀ (contextFiles : list (option (list N))) (componentName : list N),
       componentTree manifest !! componentName = None →
       componentName ∉ PlainObject.inheritedNames →
       PlainObject.addComponent manifest primaryFiles contextFiles componentName
       = contextFiles)
  ∧ (∀ (contextFiles : list (option (list N))) (primaryFile : list N)
       (importInfo : ImportInfo),
       resolveImportPath primaryFile (imp_source importInfo) allFiles = None →
       PlainObject.addImport primaryFiles allFiles primaryFile contextFiles importInfo
       = contextFiles)
  ∧ ((∀ primaryFile, primaryFile ∈ primaryFiles → files manifest !! primaryFile = None) →
       PlainObject.buildLocalContext primaryFiles manifest allFiles
       = PlainObject.Normal (Some <$> essentialFilesOf allFiles primaryFiles)).
Proof.
  assert (∀ (contextFiles : list (option (list N))) (primaryFile : list N),
            files manifest !! primaryFile = None →
            PlainObject.addLocalContext manifest primaryFiles allFiles
                                        contextFiles primaryFile
            = PlainObject.Normal contextFiles) as Hfile.
  { intros contextFiles primaryFile Hnone.
    unfold PlainObject.addLocalContext, PlainObject.get, PlainObject.getOwn.
    rewrite Hnone. by destruct (bool_decide _). }
  split_and!.
  - exact Hfile.
  - intros contextFiles primaryFile fileInfo componentInfo Hf Hci Hnode Hout.
    unfold PlainObject.addLocalContext.
    rewrite (get_own _ _ _ Hf). cbv zeta. rewrite Hci.
    by rewrite (get_missing _ _ Hnode Hout).
  - intros contextFiles componentName Hnode Hout. unfold PlainObject.addComponent.
    by rewrite (get_missing _ _ Hnode Hout).
  - intros contextFiles primaryFile importInfo Hnone. unfold PlainObject.addImport.
    rewrite Hnone. by destruct (_ && _).
  - intros Hnone.
    unfold PlainObject.buildLocalContext, PlainObject.contextSetOf. cbv zeta.
    change (@nil (option (list N))) with (Some <$> @nil (list N)).
    rewrite foldl_setAdd_Some.
    rewrite (forEach_Some _ (λ ctx _, ctx)).
    + cbn [PlainObject.andThen]. rewrite foldl_unchanged by done.
      rewrite foldl_setAdd_fresh by apply NoDup_essentialFilesOf. cbn [app].
      rewrite filter_essential_Some, filter_none; [by rewrite app_nil_r|].
      intros x Hx Hnot. by apply includes_false in Hnot.
    + intros ctx' f Hf. apply Hfile. by apply Hnone.
Qed.

(** X23.  When no component name the manifest mentions is a member name of
    [Object.prototype], [buildLocalContext] returns, its result holds paths
    only, and they are the paths that reading own keys alone gives. *)
Theorem buildLocalContext_plain_names
    (primaryFiles : list (list N)) (manifest : FileManifest)
    (allFiles : list (list N)) :
  plainNames manifest →
  PlainObject.buildLocalContext primaryFiles manifest allFiles
  = PlainObject.Normal (Some <$> buildLocalContext primaryFiles manifest allFiles).
Proof.
  intros Hplain.
  unfold PlainObject.buildLocalContext, PlainObject.contextSetOf,
         buildLocalContext, contextSetOf. cbv zeta.
  change (@nil (option (list N))) with (Some <$> @nil (list N)).
  rewrite foldl_setAdd_Some.
  rewrite (forEach_Some _ (addLocalContext manifest primaryFiles allFiles)).
  - cbn [PlainObject.andThen]. by rewrite filter_essential_Some, fmap_app.
  - intros ctx' f _. by apply addLocalContext_Some.
Qed.

Lemma buildLocalContext_plain_names_witness :
  plainNames scenarioManifest
  ∧ PlainObject.buildLocalContext
      [lit "/home/user/app/src/App.jsx"] scenarioManifest scenarioPaths
    = PlainObject.Normal
        (Some <$> buildLocalContext [lit "/home/user/app/src/App.jsx"]
                                    scenarioManifest scenarioPaths).
Proof.
  assert (plainNames scenarioManifest) as Hplain.
  { unfold plainNames, scenarioManifest. cbn [files componentTree].
    split;
      repeat (apply map_Forall_insert_2;
              [cbn [fi_componentInfo ci_name tn_importedBy tn_imports];
               apply (bool_decide_unpack _); vm_compute; exact I|]);
      apply map_Forall_empty. }
  split; [exact Hplain|].
  exact (buildLocalContext_plain_names _ _ _ Hplain).
Defined.



(** X4.  Only the first path of [allFiles] with a wanted ending is
    considered as an essential file: it is offered when it is not a primary
    file, and when it is one nothing is offered in its place, even if a
    later path has the ending too. *)
Theorem essentialCandidate_first_match
    (pre post primaryFiles : list (list N)) (f e1 e2 : list N) :
  Forall (λ x, endsWith x e1 || endsWith x e2 = false) pre →
  endsWith f e1 || endsWith f e2 = true →
  f ≠ [] →
  essentialCandidate (pre ++ f :: post) primaryFiles e1 e2
  = if includes primaryFiles f then [] else [f].
Proof.
  intros Hpre Hf Hne. unfold essentialCandidate.
  assert (List.find (λ x, endsWith x e1 || endsWith x e2) (pre ++ f :: post)
          = Some f) as ->.
  { induction Hpre as [|x pre Hx Hpre IH]; simpl.
    - by rewrite Hf.
    - by rewrite Hx. }
  destruct f; [done|]. by destruct (includes primaryFiles _).
Qed.

Lemma essentialCandidate_first_match_witness :
  essentialCandidate [lit "/src/main.jsx"; lit "/src/App.jsx"; lit "/old/App.jsx"]
                     [lit "/src/App.jsx"] (lit "App.jsx") (lit "App.tsx")
  = [].
Proof.
  apply (essentialCandidate_first_match [lit "/src/main.jsx"] [lit "/old/App.jsx"]
           [lit "/src/App.jsx"] (lit "/src/App.jsx") (lit "App.jsx") (lit "App.tsx")).
  - repeat constructor.
  - reflexivity.
  - discriminate.
Defined.

(** ** File contents and labels *)

Section contents_order.
Implicit Types (k v path : str) (o : list (list N * list N)).

Lemma split_nonempty c (s : list N) : split c s ≠ [].
Proof.
  destruct s as [|x s]; simpl; [done|].
  destruct (decide (x = c)); [done|]. by destruct (split c s).
Qed.

Lemma split_app_sep c (stem rest : list N) :
  split c (stem ++ c :: rest) = split c stem ++ split c rest.
Proof.
  induction stem as [|x stem IH]; simpl.
  - by rewrite decide_True.
  - destruct (decide (x = c)); [by rewrite IH|]. rewrite IH.
    pose proof (split_nonempty c stem). by destruct (split c stem).
Qed.

Lemma split_no_sep c (s : list N) : c ∉ s → split c s = [s].
Proof.
  induction s as [|x s IH]; [done|]. rewrite not_elem_of_cons. intros [Hne Hs].
  simpl. rewrite decide_False by done. by rewrite IH.
Qed.

Lemma extensionMapping_truthy ext m : extensionMapping ext = Some m → truthy m = true.
Proof.
  unfold extensionMapping. repeat case_decide; by intros [= <-].
Qed.

End contents_order.

Section plain_contents.
Implicit Types (k path : str) (ks : list str) (manifest : FileManifest).
Implicit Types (o : list (list N * option (list N))).

Lemma plain_recordSet_keyed (val : list N → option (list N)) ks k :
  PlainObject.recordSet ((λ key, (key, val key)) <$> ks) k (val k)
  = (λ key, (key, val key)) <$> setAdd ks k.
Proof.
  unfold setAdd. induction ks as [|k' ks IH]; [done|].
  rewrite fmap_cons. cbn [PlainObject.recordSet].
  destruct (decide (k' = k)) as [->|Hne].
  - rewrite (proj2 (includes_true _ _)); [done|by left].
  - rewrite IH. destruct (includes ks k) eqn:Hin.
    + rewrite (proj2 (includes_true (k' :: ks) k)); [done|].
      right. by apply includes_true.
    + rewrite (proj2 (includes_false (k' :: ks) k)); [done|].
      apply includes_false in Hin. by apply not_elem_of_cons.
Qed.

Lemma Forall_plain_recordSet (P : list N * option (list N) → Prop) o k v :
  Forall P o → P (k, v) → Forall P (PlainObject.recordSet o k v).
Proof.
  intros Ho Hkv. induction Ho as [|[k' v'] o Hhead Ho IH]; cbn [PlainObject.recordSet].
  - by apply Forall_singleton.
  - destruct (decide (k' = k)); apply Forall_cons; by split.
Qed.

Lemma entries_without_index {V} (o : list (list N * V)) :
  Forall (λ e, PlainObject.arrayIndex e.1 = None) o → PlainObject.entries o = o.
Proof.
  intros Ho. unfold PlainObject.entries.
  assert (PlainObject.indexedEntries o = []) as ->.
  { unfold PlainObject.indexedEntries.
    induction Ho as [|e o He Ho IH]; [done|]. cbn [foldr]. by rewrite He. }
  cbn [fmap list_fmap app].
  induction Ho as [|e o He Ho IH]; [done|]. by rewrite filter_cons_True, IH.
Qed.

Lemma plain_getFileExtension_dotted (stem ext : list N) :
  dot ∉ ext →
  PlainObject.getFileExtension (stem ++ dot :: ext)
  = match extensionMapping ext with
    | Some m => PlainObject.Text m
    | None => if bool_decide (ext ∈ PlainObject.inheritedNames)
              then PlainObject.InheritedMember ext
              else PlainObject.Text ext
    end.
Proof.
  intros Hext. unfold PlainObject.getFileExtension, PlainObject.getOwn, popValue.
  rewrite split_app_sep, (split_no_sep dot ext Hext), last_snoc.
  assert ((if truthy ext then ext else []) = ext) as -> by by destruct ext.
  destruct (extensionMapping ext) as [m|] eqn:Hm.
  - by rewrite (extensionMapping_truthy _ _ Hm).
  - by destruct (bool_decide _).
Qed.

Lemma relationshipLines_skipped manifest (file : list N) :
  files manifest !! file = None
  ∨ (∃ fileInfo,
       files manifest !! file = Some fileInfo
       ∧ (fi_componentInfo fileInfo = None
          ∨ ∃ componentInfo,
              fi_componentInfo fileInfo = Some componentInfo
              ∧ componentTree manifest !! ci_name componentInfo = None
              ∧ ci_name componentInfo ∉ PlainObject.inheritedNames)) →
  PlainObject.relationshipLines manifest file = PlainObject.Normal [].
Proof.
  unfold PlainObject.relationshipLines.
  intros [Hnone|(fileInfo & Hf & [Hci|(componentInfo & Hci & Hnode & Hout)])].
  - unfold PlainObject.get, PlainObject.getOwn. rewrite Hnone.
    by destruct (bool_decide _).
  - by rewrite (get_own _ _ _ Hf), Hci.
  - rewrite (get_own _ _ _ Hf), Hci. cbv zeta.
    by rewrite (get_missing _ _ Hnode Hout).
Qed.

Lemma relationships_skip (manifest : FileManifest) (before after : list (list N))
    (file : list N) (start : list (list N)) :
  PlainObject.relationshipLines manifest file = PlainObject.Normal [] →
  PlainObject.forEach
    (λ relationships f,
       PlainObject.andThen (PlainObject.relationshipLines manifest f)
         (λ lines, PlainObject.Normal (relationships ++ lines)))
    start (before ++ file :: after)
  = PlainObject.forEach
      (λ relationships f,
         PlainObject.andThen (PlainObject.relationshipLines manifest f)
           (λ lines, PlainObject.Normal (relationships ++ lines)))
      start (before ++ after).
Proof.
  intros Hskip. rewrite !forEach_app.
  destruct (PlainObject.forEach _ start before) as [b|]; [|done].
  cbn [PlainObject.andThen]. rewrite forEach_cons, Hskip.
  cbn [PlainObject.andThen]. by rewrite app_nil_r.
Qed.

End plain_contents.

(** X5.  The object [getFileContents] returns has one property for each
    requested path that is a key of [manifest.files] or a member name of
    [Object.prototype] other than [__proto__], created in the order in which
    the paths are first requested; it holds the content of the file, and
    [undefined] for a path that is no key of [manifest.files].  When no
    requested path is an array index, [Object.entries] lists the properties
    in that order. *)
Theorem getFileContents_order (filesWanted : list (list N)) (manifest : FileManifest) :
  PlainObject.getFileContents filesWanted manifest
  = (λ path, (path, fi_content <$> files manifest !! path))
    <$> foldl setAdd []
          (filter (λ path, path ≠ lit "__proto__"
                           ∧ (is_Some (files manifest !! path)
                              ∨ path ∈ PlainObject.inheritedNames))
                  filesWanted)
  ∧ (Forall (λ path, PlainObject.arrayIndex path = None) filesWanted →
     PlainObject.entries (PlainObject.getFileContents filesWanted manifest)
     = PlainObject.getFileContents filesWanted manifest).
Proof.
  split.
  - unfold PlainObject.getFileContents.
    set (val := λ path : list N, fi_content <$> files manifest !! path).
    set (kept := λ path : list N,
                   path ≠ lit "__proto__"
                   ∧ (is_Some (files manifest !! path)
                      ∨ path ∈ PlainObject.inheritedNames)).
    set (step := λ (contents : list (list N * option (list N))) (file : list N),
                   match PlainObject.get (files manifest) file with
                   | PlainObject.Own fileInfo =>
                       PlainObject.assign contents file (Some (fi_content fileInfo))
                   | PlainObject.Inherited => PlainObject.assign contents file None
                   | PlainObject.Missing => contents
                   end).
    assert (∀ ks : list (list N),
              foldl step ((λ key, (key, val key)) <$> ks) filesWanted
              = (λ key, (key, val key)) <$> foldl setAdd ks (filter kept filesWanted))
      as Hgen.
    { induction filesWanted as [|f l IH]; intros ks; [done|]. cbn [foldl].
      assert (∀ v, v = val f →
                PlainObject.assign ((λ key, (key, val key)) <$> ks) f v
                = (λ key, (key, val key))
                  <$> (if decide (f = lit "__proto__") then ks else setAdd ks f))
        as Hassign.
      { intros v ->. unfold PlainObject.assign.
        destruct (decide (f = lit "__proto__")); [done|].
        apply plain_recordSet_keyed. }
      unfold step at 2. unfold PlainObject.get, PlainObject.getOwn.
      destruct (files manifest !! f) as [fileInfo|] eqn:Hf.
      - rewrite Hassign by (unfold val; by rewrite Hf). rewrite IH.
        destruct (decide (f = lit "__proto__")) as [Hproto|Hproto].
        + rewrite filter_cons_False; [done|]. by intros [? _].
        + rewrite filter_cons_True; [done|]. split; [done|]. left. by rewrite Hf.
      - case_bool_decide as Hin.
        + rewrite Hassign by (unfold val; by rewrite Hf). rewrite IH.
          destruct (decide (f = lit "__proto__")) as [Hproto|Hproto].
          * rewrite filter_cons_False; [done|]. by intros [? _].
          * rewrite filter_cons_True; [done|]. split; [done|]. by right.
        + rewrite IH. rewrite filter_cons_False; [done|].
          intros [_ [Hsome|?]]; [|done]. rewrite Hf in Hsome. by destruct Hsome. }
    apply (Hgen []).
  - intros Hplain. apply entries_without_index.
    unfold PlainObject.getFileContents.
    apply Forall_foldl_elem; [|constructor].
    intros acc file Hfile Hacc.
    assert (∀ v, Forall (λ e, PlainObject.arrayIndex e.1 = None)
                        (PlainObject.assign acc file v)) as Hassign.
    { intros v. unfold PlainObject.assign. destruct (decide _); [done|].
      apply Forall_plain_recordSet; [done|].
      by apply (proj1 (Forall_forall _ _) Hplain). }
    by destruct (PlainObject.get (files manifest) file).
Qed.

(** X6.  What [getFileExtension] returns is decided by the text after the
    last dot of the path, or by the whole path when it has no dot: the
    label of the table for [js], [jsx], [ts], [tsx], [css] and [json]; for a
    member name of [Object.prototype], that member and no string; otherwise
    the text itself (the empty string after a final dot).  Whenever the
    result is a string, it is the one that reading the own keys of the
    table gives. *)
Theorem getFileExtension_by_last_dot :
  (∀ stem ext : list N,
     dot ∉ ext →
     PlainObject.getFileExtension (stem ++ lit "." ++ ext)
     = match extensionMapping ext with
       | Some m => PlainObject.Text m
       | None => if bool_decide (ext ∈ PlainObject.inheritedNames)
                 then PlainObject.InheritedMember ext
                 else PlainObject.Text ext
       end)
  ∧ (∀ path : list N,
       dot ∉ path →
       PlainObject.getFileExtension path
       = match extensionMapping path with
         | Some m => PlainObject.Text m
         | None => if bool_decide (path ∈ PlainObject.inheritedNames)
                   then PlainObject.InheritedMember path
                   else PlainObject.Text path
         end)
  ∧ (∀ stem : list N,
       PlainObject.getFileExtension (stem ++ lit ".js")
       = PlainObject.Text (lit "javascript")
       ∧ PlainObject.getFileExtension (stem ++ lit ".jsx")
         = PlainObject.Text (lit "javascript")
       ∧ PlainObject.getFileExtension (stem ++ lit ".ts")
         = PlainObject.Text (lit "typescript")
       ∧ PlainObject.getFileExtension (stem ++ lit ".tsx")
         = PlainObject.Text (lit "typescript")
       ∧ PlainObject.getFileExtension (stem ++ lit ".") = PlainObject.Text []
       ∧ PlainObject.getFileExtension (stem ++ lit ".constructor")
         = PlainObject.InheritedMember (lit "constructor"))
  ∧ (∀ path : list N,
       match PlainObject.getFileExtension path with
       | PlainObject.Text label => label = getFileExtension path
       | PlainObject.InheritedMember name =>
           name ∈ PlainObject.inheritedNames ∧ extensionMapping name = None
       end).
Proof.
  split_and!; [| | |intros path].
  4: { unfold PlainObject.getFileExtension, PlainObject.getOwn, getFileExtension.
       cbv zeta.
       destruct (extensionMapping _) as [m|] eqn:Hm; [done|].
       case_bool_decide; [|done]. by split. }
  - intros stem ext Hext. by apply plain_getFileExtension_dotted.
  - intros path Hpath.
    unfold PlainObject.getFileExtension, PlainObject.getOwn, popValue.
    rewrite (split_no_sep dot path Hpath). cbn [last].
    assert ((if truthy path then path else []) = path) as -> by by destruct path.
    destruct (extensionMapping path) as [m|] eqn:Hm.
    + by rewrite (extensionMapping_truthy _ _ Hm).
    + by destruct (bool_decide _).
  - intros stem.
    split_and!;
      [ change (lit ".js") with (dot :: lit "js")
      | change (lit ".jsx") with (dot :: lit "jsx")
      | change (lit ".ts") with (dot :: lit "ts")
      | change (lit ".tsx") with (dot :: lit "tsx")
      | change (lit ".") with (dot :: @nil N)
      | change (lit ".constructor") with (dot :: lit "constructor") ];
      (rewrite plain_getFileExtension_dotted; [reflexivity|]);
      by apply (bool_decide_unpack _).
Qed.

(** X7.  In [buildComponentRelationships] a file that is no key of
    [manifest.files], a file without component information, and a file
    whose component name is neither a key of the tree nor a member name of
    [Object.prototype] add nothing: dropping such a file from the list
    changes nothing.  A file whose component name is no key of the tree but
    is a member name of [Object.prototype] makes the call throw.  A file
    whose component has a node adds a sub-heading with the component
    name. *)
Theorem buildComponentRelationships_skips (manifest : FileManifest) :
  (∀ (before after : list (list N)) (file : list N),
     files manifest !! file = None
     ∨ (∃ fileInfo,
          files manifest !! file = Some fileInfo
          ∧ (fi_componentInfo fileInfo = None
             ∨ ∃ componentInfo,
                 fi_componentInfo fileInfo = Some componentInfo
                 ∧ componentTree manifest !! ci_name componentInfo = None
                 ∧ ci_name componentInfo ∉ PlainObject.inheritedNames)) →
     PlainObject.buildComponentRelationships (before ++ file :: after) manifest
     = PlainObject.buildComponentRelationships (before ++ after) manifest)
  ∧ (∀ (before after : list (list N)) (file : list N) fileInfo componentInfo,
       files manifest !! file = Some fileInfo →
       fi_componentInfo fileInfo = Some componentInfo →
       componentTree manifest !! ci_name componentInfo = None →
       ci_name componentInfo ∈ PlainObject.inheritedNames →
       PlainObject.buildComponentRelationships (before ++ file :: after) manifest
       = PlainObject.TypeError)
  ∧ (∀ (file : list N) fileInfo componentInfo treeNode,
       files manifest !! file = Some fileInfo →
       fi_componentInfo fileInfo = Some componentInfo →
       componentTree manifest !! ci_name componentInfo = Some treeNode →
       ∃ more,
         PlainObject.buildComponentRelationships [file] manifest
         = PlainObject.Normal
             (lit "## Component Relationships" ++ nl
              ++ nl ++ lit "### " ++ ci_name componentInfo ++ more)).
Proof.
  unfold PlainObject.buildComponentRelationships. split_and!.
  - intros before after file Hskip.
    by rewrite (relationships_skip _ _ _ _ _ (relationshipLines_skipped _ _ Hskip)).
  - intros before after file fileInfo componentInfo Hf Hci Hnode Hin.
    rewrite forEach_app.
    destruct (PlainObject.forEach _ _ before) as [b|]; [|done].
    cbn [PlainObject.andThen]. rewrite forEach_cons.
    unfold PlainObject.relationshipLines at 1.
    rewrite (get_own _ _ _ Hf), Hci. cbv zeta.
    by rewrite (get_inherited _ _ Hnode Hin).
  - intros file fileInfo componentInfo treeNode Hf Hci Hnode.
    rewrite forEach_cons. unfold PlainObject.relationshipLines.
    rewrite (get_own _ _ _ Hf), Hci. cbv zeta. rewrite (get_own _ _ _ Hnode).
    cbn [PlainObject.andThen PlainObject.forEach foldl app].
    match goal with
    | |- context [ (nl ++ lit "### " ++ ci_name componentInfo) :: ?rest ] =>
        generalize rest
    end.
    intros more. destruct more as [|line more].
    + exists []. cbn [app join]. by rewrite ?app_nil_r, <-?(assoc_L (++)).
    + exists (nl ++ join nl (line :: more)).
      cbn [app join]. by rewrite <-?(assoc_L (++)).
Qed.

(** ** Conversation memory: labels and excerpts *)

(** X8.  The label of [getTimeAgo] by the age in milliseconds: under one
    minute (and for a time stamp in the future) [just now]; under one hour
    the whole minutes; under one day the whole hours; from one day on the
    whole days. *)
Theorem getTimeAgo_by_age (now timestamp : Z) :
  ((now - timestamp < 60000)%Z → getTimeAgo now timestamp = lit "just now")
  ∧ ((60000 ≤ now - timestamp < 3600000)%Z →
       getTimeAgo now timestamp
       = ofZ ((now - timestamp) / 60000) ++ lit "m ago")
  ∧ ((3600000 ≤ now - timestamp < 86400000)%Z →
       getTimeAgo now timestamp
       = ofZ ((now - timestamp) / 3600000) ++ lit "h ago")
  ∧ ((86400000 ≤ now - timestamp)%Z →
       getTimeAgo now timestamp
       = ofZ ((now - timestamp) / 86400000) ++ lit "d ago").
Proof.
  unfold getTimeAgo. cbv zeta.
  change (1000 * 60)%Z with 60000%Z.
  set (diff := (now - timestamp)%Z).
  assert ((diff / 60000 / 60 = diff / 3600000)%Z) as Hhours.
  { rewrite Z.div_div by lia. done. }
  assert ((diff / 60000 / 60 / 24 = diff / 86400000)%Z) as Hdays.
  { rewrite Hhours, Z.div_div by lia. done. }
  split_and!; intros Hage.
  - assert ((diff / 60000 < 1)%Z) by (apply Z.div_lt_upper_bound; lia).
    by rewrite (proj2 (Z.ltb_lt _ _)).
  - assert ((1 ≤ diff / 60000)%Z) by (apply Z.div_le_lower_bound; lia).
    assert ((diff / 60000 < 60)%Z) by (apply Z.div_lt_upper_bound; lia).
    rewrite (proj2 (Z.ltb_ge _ _)) by lia. by rewrite (proj2 (Z.ltb_lt _ _)).
  - assert ((60 ≤ diff / 60000)%Z) by (apply Z.div_le_lower_bound; lia).
    assert ((diff / 3600000 < 24)%Z) by (apply Z.div_lt_upper_bound; lia).
    rewrite (proj2 (Z.ltb_ge _ 1)) by lia. rewrite (proj2 (Z.ltb_ge _ 60)) by lia.
    rewrite Hhours. by rewrite (proj2 (Z.ltb_lt _ _)).
  - assert ((60 ≤ diff / 60000)%Z) by (apply Z.div_le_lower_bound; lia).
    assert ((24 ≤ diff / 3600000)%Z) by (apply Z.div_le_lower_bound; lia).
    rewrite (proj2 (Z.ltb_ge _ 1)) by lia. rewrite (proj2 (Z.ltb_ge _ 60)) by lia.
    rewrite Hdays, Hhours. by rewrite (proj2 (Z.ltb_ge _ 24)).
Qed.

(** X9.  With a limit of at least three, [truncateText] never returns more
    than the limit: a text within the limit is returned as it is, a longer
    one is cut to the limit less three and closed by three dots, which
    makes exactly the limit.  With a smaller limit a longer text becomes the
    three dots alone. *)
Theorem truncateText_length (text : list N) (maxLength : nat) :
  (3 ≤ maxLength → length (truncateText text maxLength) ≤ maxLength)
  ∧ (length text ≤ maxLength → truncateText text maxLength = text)
  ∧ (3 ≤ maxLength → maxLength < length text →
       truncateText text maxLength = take (maxLength - 3) text ++ lit "..."
       ∧ length (truncateText text maxLength) = maxLength)
  ∧ (maxLength < 3 → maxLength < length text →
       truncateText text maxLength = lit "...").
Proof.
  unfold truncateText. split_and!.
  - intros Hmax. destruct (decide (length text ≤ maxLength)); [done|].
    rewrite length_app, length_take.
    change (length (lit "...")) with 3. lia.
  - intros Hlen. by rewrite decide_True.
  - intros Hmax Hlen. rewrite decide_False by lia. split; [done|].
    rewrite length_app, length_take. change (length (lit "...")) with 3. lia.
  - intros Hmax Hlen. rewrite decide_False by lia.
    replace (maxLength - 3) with 0 by lia. done.
Qed.

(** ** Conversation memory: recent interactions *)

Section recent.
Implicit Types (msgs pending post : list ConversationMessage)
               (acc : list Interaction) (um : option ConversationMessage).

Lemma pairedInside_extend pre post i :
  pairedInside post i → pairedInside (pre ++ post) i.
Proof.
  intros [Hrole Hpair]. split; [done|].
  destruct (aiMessage i) as [a|].
  - destruct Hpair as (Ha & l1 & l3 & ->). split; [done|].
    exists (pre ++ l1), l3. by rewrite <-(assoc_L (++)).
  - destruct Hpair as (l1 & u' & l3 & Hu' & ->).
    exists (pre ++ l1), u', l3. split; [done|]. by rewrite <-(assoc_L (++)).
Qed.

Lemma scanBackward_paired (n : nat) pending acc um post :
  Forall (pairedInside post) acc →
  (∀ u, um = Some u → msg_role u = user ∧ ∃ l3, post = u :: l3) →
  ∃ pre' post',
    reverse pending ++ post = pre' ++ post'
    ∧ Forall (pairedInside post') (scanBackward n pending acc um).1
    ∧ (∀ u, (scanBackward n pending acc um).2 = Some u →
            msg_role u = user ∧ ∃ l3, post' = u :: l3)
    ∧ (pre' = [] ∨ ¬ length (scanBackward n pending acc um).1 < n).
Proof.
  revert acc um post. induction pending as [|m earlier IH]; intros acc um post Hacc Hum.
  - exists [], post. split_and!; [done|done|done|by left].
  - cbn [scanBackward]. destruct (decide (length acc < n)) as [Hroom|Hfull].
    + assert (Forall (pairedInside (m :: post)) acc) as Hacc'.
      { eapply Forall_impl; [exact Hacc|]. intros i Hi.
        by apply (pairedInside_extend [m]). }
      rewrite reverse_cons, <-(assoc_L (++)). cbn [app].
      destruct (msg_role m) eqn:Hrole.
      * apply IH.
        -- destruct um as [u|]; [|done]. apply Forall_cons. split; [|done].
           destruct (Hum u eq_refl) as (Hu & l3 & ->).
           split; [done|]. cbn [aiMessage userMessage].
           exists [], m, l3. done.
        -- intros u [= <-]. split; [done|]. by eexists.
      * destruct um as [u|].
        -- apply IH; [|done]. apply Forall_cons. split; [|done].
           destruct (Hum u eq_refl) as (Hu & l3 & ->).
           split; [done|]. cbn [aiMessage userMessage]. split; [done|].
           by exists [], l3.
        -- apply IH; [done|done].
    + exists (reverse (m :: earlier)), post. split_and!; [done|done|done|by right].
Qed.

Lemma getRecentInteractions_paired msgs (n : nat) :
  Forall (pairedAsScanned msgs) (getRecentInteractions msgs n).
Proof.
  unfold getRecentInteractions.
  destruct (scanBackward_paired n (reverse msgs) [] None [])
    as (pre' & post' & Hlog & Hacc & Hum & Hdone); [constructor|done|].
  rewrite app_nil_r, reverse_involutive in Hlog.
  destruct (scanBackward n (reverse msgs) [] None) as [acc um]. cbn [fst snd] in *.
  apply Forall_take.
  assert (Forall (pairedAsScanned msgs) acc) as Hacc'.
  { eapply Forall_impl; [exact Hacc|]. intros i Hi. left. rewrite Hlog.
    by apply pairedInside_extend. }
  destruct um as [u|]; [|done].
  destruct (decide (length acc < n)) as [Hroom|?]; [|done].
  apply Forall_cons. split; [|done].
  destruct Hdone as [->|?]; [|done].
  destruct (Hum u eq_refl) as (Hu & l3 & ->).
  right. split_and!; [done|done|]. exists l3. by rewrite Hlog.
Qed.

End recent.

(** X10.  [getRecentInteractions] returns at most [maxCount] pairs.  In each
    pair the user message has the user role and an assistant message, when
    there is one, has the assistant role and is the message just before the
    user message in the log; a pair without an assistant message has its
    user message at the very start of the log or right after another user
    message. *)
Theorem getRecentInteractions_pairs
    (msgs : list ConversationMessage) (maxCount : nat) :
  length (getRecentInteractions msgs maxCount) ≤ maxCount
  ∧ Forall (λ i,
      msg_role (userMessage i) = user
      ∧ match aiMessage i with
        | Some a =>
            msg_role a = assistant
            ∧ ∃ before after, msgs = before ++ a :: userMessage i :: after
        | None =>
            (∃ after, msgs = userMessage i :: after)
            ∨ (∃ before u' after,
                 msg_role u' = user
                 ∧ msgs = before ++ u' :: userMessage i :: after)
        end)
      (getRecentInteractions msgs maxCount).
Proof.
  split.
  - unfold getRecentInteractions.
    destruct (scanBackward maxCount (reverse msgs) [] None) as [acc um].
    rewrite length_take. lia.
  - eapply Forall_impl; [apply getRecentInteractions_paired|].
    intros i [[Hrole Hpair]|(Hrole & Hnone & Hfirst)].
    + split; [done|]. destruct (aiMessage i); [done|by right].
    + split; [done|]. rewrite Hnone. by left.
Qed.

(** X11.  An assistant message at the end of the log is ignored by
    [getRecentInteractions]: the pairs are those of the log without it. *)
Theorem getRecentInteractions_ignores_last_reply
    (msgs : list ConversationMessage) (reply : ConversationMessage) (maxCount : nat) :
  msg_role reply = assistant →
  getRecentInteractions (msgs ++ [reply]) maxCount
  = getRecentInteractions msgs maxCount.
Proof.
  intros Hrole. unfold getRecentInteractions.
  rewrite reverse_snoc. cbn [scanBackward]. rewrite Hrole.
  destruct (decide (length (@nil Interaction) < maxCount)) as [?|Hzero]; [done|].
  assert (maxCount = 0) as -> by (simpl in Hzero; lia).
  destruct (reverse msgs) as [|m earlier]; [done|].
  cbn [scanBackward]. rewrite decide_False by (simpl; lia). done.
Qed.

Lemma getRecentInteractions_ignores_last_reply_witness :
  msg_role (plainMessage "ai-2" assistant "Updated Hero.jsx" 4000) = assistant
  ∧ getRecentInteractions
      ([plainMessage "msg-1" user "add a hero section" 1000;
        plainMessage "ai-1" assistant "Created Hero.jsx" 2000;
        plainMessage "msg-2" user "make the button blue" 3000]
       ++ [plainMessage "ai-2" assistant "Updated Hero.jsx" 4000]) 5
    = getRecentInteractions
        [plainMessage "msg-1" user "add a hero section" 1000;
         plainMessage "ai-1" assistant "Created Hero.jsx" 2000;
         plainMessage "msg-2" user "make the button blue" 3000] 5.
Proof.
  split; [reflexivity|].
  apply (getRecentInteractions_ignores_last_reply
           [plainMessage "msg-1" user "add a hero section" 1000;
            plainMessage "ai-1" assistant "Created Hero.jsx" 2000;
            plainMessage "msg-2" user "make the button blue" 3000]
           (plainMessage "ai-2" assistant "Updated Hero.jsx" 4000) 5).
  reflexivity.
Defined.

(** ** Conversation memory: summaries and preferences *)

Section digest_parts.
Implicit Types (parts : list str) (sep x : str).

Lemma join_truthy sep parts :
  Forall (λ x, truthy x = true) parts → parts ≠ [] → truthy (join sep parts) = true.
Proof.
  intros Hparts Hne. destruct Hparts as [|x rest Hx _]; [done|].
  destruct rest; cbn [join]; by destruct x.
Qed.

Lemma patternsOf_labels (content : str) :
  Forall (λ x, x ∈ requestLabels) (patternsOf content).
Proof.
  unfold patternsOf, requestLabels.
  repeat (apply Forall_app; split);
    match goal with |- Forall _ (if ?b then _ else _) => destruct b end;
    try constructor; try constructor; set_solver.
Qed.

Lemma NoDup_foldl_setAdd (l ctx : list (list N)) :
  NoDup ctx → NoDup (foldl setAdd ctx l).
Proof.
  revert ctx. induction l as [|a l IH]; intros ctx Hctx; [done|].
  simpl. by apply IH, NoDup_setAdd.
Qed.

End digest_parts.

(** X12.  [generateActionSummary] never returns the empty string, so the AI
    response line of the digest always has a text. *)
Theorem generateActionSummary_nonempty (aiMsg : ConversationMessage) :
  truthy (generateActionSummary aiMsg) = true.
Proof.
  unfold generateActionSummary.
  destruct (msg_metadata aiMsg) as [metadata|]; [|done]. cbv zeta.
  set (parts1 := match md_fileCount metadata with Some _ => _ | None => _ end).
  set (parts2 := match md_componentCount metadata with Some _ => _ | None => _ end).
  set (parts3 := match md_addedPackages metadata with Some _ => _ | None => _ end).
  assert (Forall (λ x, truthy x = true) parts1) as H1.
  { subst parts1. destruct (md_fileCount metadata) as [n|]; [|done].
    destruct (truthyNum (Some n)); [|done].
    destruct (n =? 1)%Z; by repeat constructor. }
  assert (Forall (λ x, truthy x = true) parts2) as H2.
  { subst parts2. destruct (md_componentCount metadata) as [n|]; [|done].
    destruct (truthyNum (Some n)); [|done].
    destruct (n =? 1)%Z; by repeat constructor. }
  assert (Forall (λ x, truthy x = true) parts3) as H3.
  { subst parts3. destruct (md_addedPackages metadata) as [pkgs|]; [|done].
    destruct (decide (0 < length pkgs)); [|done]. by repeat constructor. }
  destruct (decide (0 < length (parts1 ++ parts2 ++ parts3))) as [Hsome|?]; [|done].
  apply join_truthy.
  - by repeat (apply Forall_app; split).
  - intros Hnil. rewrite Hnil in Hsome. simpl in Hsome. lia.
Qed.

(** X13.  [analyzeUserPreferences] reports at most three request labels,
    without repetition, each one of the five fixed labels; with no user
    message in the log it reports none and the comprehensive style. *)
Theorem analyzeUserPreferences_patterns (host : Host) (msgs : list ConversationMessage) :
  length (commonPatterns (analyzeUserPreferences host msgs)) ≤ 3
  ∧ NoDup (commonPatterns (analyzeUserPreferences host msgs))
  ∧ Forall (λ x, x ∈ requestLabels) (commonPatterns (analyzeUserPreferences host msgs))
  ∧ (Forall (λ m, msg_role m = assistant) msgs →
       commonPatterns (analyzeUserPreferences host msgs) = []
       ∧ preferredEditStyle (analyzeUserPreferences host msgs) = comprehensive).
Proof.
  unfold analyzeUserPreferences. cbv zeta. cbn [commonPatterns preferredEditStyle].
  split_and!.
  - rewrite length_take. lia.
  - eapply sublist_NoDup; [|apply sublist_take].
    apply NoDup_foldl_setAdd. constructor.
  - apply Forall_take. apply Forall_foldl_setAdd; [|constructor].
    apply Forall_concat, Forall_fmap, Forall_forall. intros content _.
    apply patternsOf_labels.
  - intros Hall.
    assert (filter (λ m, msg_role m = user) msgs = []) as ->.
    { apply filter_none. intros m Hm Huser.
      pose proof (proj1 (Forall_forall _ _) Hall m Hm) as Hrole. congruence. }
    done.
Qed.

Section summary_records.
Implicit Types (s : SessionSummary) (file : AppliedFile) (pkg : str).

Lemma NoDup_snoc_fresh (l : list (list N)) (x : list N) :
  NoDup l → includes l x = false → NoDup (l ++ [x]).
Proof.
  intros Hl Hx%includes_false. apply NoDup_app. split_and!; [done| |apply NoDup_singleton].
  intros y Hy ->%list_elem_of_singleton. done.
Qed.

Lemma recordAppliedFile_nodup s file :
  summaryNoDup s → summaryNoDup (recordAppliedFile s file).
Proof.
  intros (Hc & Hm & Hp & Hk). unfold recordAppliedFile. cbv zeta.
  destruct (bool_decide (af_action file = created)); cbn [andb].
  - destruct (includes (filesCreated s) (af_path file)) eqn:Hin; cbn [negb].
    + destruct (bool_decide (af_action file = modified)); cbn [andb]; [|done].
      destruct (includes (filesModified s) (af_path file)) eqn:Hin'; cbn [negb]; [done|].
      split_and!; simpl; try done. by apply NoDup_snoc_fresh.
    + destruct (af_componentName file) as [componentName|].
      * destruct (truthy componentName); cbn [andb].
        -- destruct (includes _ componentName) eqn:Hin'; cbn [negb].
           ++ split_and!; simpl; try done. by apply NoDup_snoc_fresh.
           ++ split_and!; simpl; try done; by apply NoDup_snoc_fresh.
        -- split_and!; simpl; try done. by apply NoDup_snoc_fresh.
      * split_and!; simpl; try done. by apply NoDup_snoc_fresh.
  - destruct (bool_decide (af_action file = modified)); cbn [andb]; [|done].
    destruct (includes (filesModified s) (af_path file)) eqn:Hin'; cbn [negb]; [done|].
    split_and!; simpl; try done. by apply NoDup_snoc_fresh.
Qed.

Lemma recordPackage_nodup s pkg : summaryNoDup s → summaryNoDup (recordPackage s pkg).
Proof.
  intros (Hc & Hm & Hp & Hk). unfold recordPackage.
  destruct (includes (packagesAdded s) pkg) eqn:Hin; cbn [negb]; [done|].
  split_and!; simpl; try done. by apply NoDup_snoc_fresh.
Qed.

Lemma foldl_summaryNoDup {A} (step : SessionSummary → A → SessionSummary)
    (l : list A) s :
  (∀ s' a, summaryNoDup s' → summaryNoDup (step s' a)) →
  summaryNoDup s → summaryNoDup (foldl step s l).
Proof.
  intros Hstep. revert s. induction l as [|a l IH]; intros s Hs; [done|].
  simpl. by apply IH, Hstep.
Qed.

Lemma recordAppliedFile_last s file :
  lastActionSummary (recordAppliedFile s file) = lastActionSummary s.
Proof.
  unfold recordAppliedFile. cbv zeta.
  destruct (_ && _).
  - destruct (af_componentName file) as [c|]; [|done]. by destruct (_ && _).
  - by destruct (_ && _).
Qed.

Lemma recordPackage_last s pkg :
  lastActionSummary (recordPackage s pkg) = lastActionSummary s.
Proof. unfold recordPackage. by destruct (negb _). Qed.

Lemma foldl_last {A} (step : SessionSummary → A → SessionSummary) (l : list A) s :
  (∀ s' a, lastActionSummary (step s' a) = lastActionSummary s') →
  lastActionSummary (foldl step s l) = lastActionSummary s.
Proof.
  intros Hstep. revert s. induction l as [|a l IH]; intros s; [done|].
  simpl. by rewrite IH, Hstep.
Qed.

Lemma recordAppliedFile_member s file :
  (af_action file = created → af_path file ∈ filesCreated (recordAppliedFile s file))
  ∧ (af_action file = modified → af_path file ∈ filesModified (recordAppliedFile s file)).
Proof.
  unfold recordAppliedFile. cbv zeta. split; intros Hact; rewrite Hact.
  - rewrite bool_decide_eq_true_2 by done. cbn [andb].
    destruct (includes (filesCreated s) (af_path file)) eqn:Hin; cbn [negb].
    + rewrite bool_decide_eq_false_2 by done. cbn [andb]. by apply includes_true.
    + assert (af_path file ∈ filesCreated s ++ [af_path file]) as Hnew
        by (apply elem_of_app; right; by left).
      destruct (af_componentName file) as [c|]; [|done]. by destruct (_ && _).
  - rewrite bool_decide_eq_false_2 by done. cbn [andb].
    rewrite bool_decide_eq_true_2 by done. cbn [andb].
    destruct (includes (filesModified s) (af_path file)) eqn:Hin; cbn [negb].
    + by apply includes_true.
    + simpl. apply elem_of_app. right. by left.
Qed.

Lemma recordPackage_member s pkg : pkg ∈ packagesAdded (recordPackage s pkg).
Proof.
  unfold recordPackage. destruct (includes (packagesAdded s) pkg) eqn:Hin; cbn [negb].
  - by apply includes_true.
  - simpl. apply elem_of_app. right. by left.
Qed.

Lemma prefix_elem {A} (l1 l2 : list A) x : l1 `prefix_of` l2 → x ∈ l1 → x ∈ l2.
Proof. intros [k ->] Hx. apply elem_of_app. by left. Qed.

Lemma foldl_recordAppliedFile_member (l : list AppliedFile) s file :
  file ∈ l →
  (af_action file = created → af_path file ∈ filesCreated (foldl recordAppliedFile s l))
  ∧ (af_action file = modified →
       af_path file ∈ filesModified (foldl recordAppliedFile s l)).
Proof.
  revert s. induction l as [|f l IH]; intros s; [by intros ?%elem_of_nil|].
  intros [->|Hin]%elem_of_cons; [|by apply IH]. cbn [foldl].
  destruct (foldl_grows recordAppliedFile l (recordAppliedFile s f)
              recordAppliedFile_grows) as [_ (Hc & Hm & _)].
  destruct (recordAppliedFile_member s f) as [Hcreated Hmodified].
  split; intros Hact; eapply prefix_elem; eauto.
Qed.

Lemma foldl_recordPackage_member (l : list (list N)) s pkg :
  pkg ∈ l → pkg ∈ packagesAdded (foldl recordPackage s l).
Proof.
  revert s. induction l as [|p l IH]; intros s; [by intros ?%elem_of_nil|].
  intros [->|Hin]%elem_of_cons; [|by apply IH]. cbn [foldl].
  destruct (foldl_grows recordPackage l (recordPackage s p) recordPackage_grows)
    as [_ (_ & _ & Hp & _)].
  eapply prefix_elem; [exact Hp|apply recordPackage_member].
Qed.

Lemma recordAppliedFile_known s file :
  (af_action file = created → af_path file ∈ filesCreated s) →
  (af_action file = modified → af_path file ∈ filesModified s) →
  recordAppliedFile s file = s.
Proof.
  intros Hc Hm. unfold recordAppliedFile. cbv zeta.
  destruct (decide (af_action file = created)) as [Hact|Hact].
  - rewrite (proj2 (includes_true _ _) (Hc Hact)). rewrite andb_false_r.
    rewrite (bool_decide_eq_false_2 (af_action file = modified)); [done|].
    by rewrite Hact.
  - rewrite (bool_decide_eq_false_2 _ Hact). cbn [andb].
    destruct (decide (af_action file = modified)) as [Hact'|Hact'].
    + rewrite (proj2 (includes_true _ _) (Hm Hact')). by rewrite andb_false_r.
    + by rewrite (bool_decide_eq_false_2 _ Hact').
Qed.

Lemma recordPackage_known s pkg :
  pkg ∈ packagesAdded s → recordPackage s pkg = s.
Proof.
  intros Hin. unfold recordPackage. by rewrite (proj2 (includes_true _ _) Hin).
Qed.

Lemma foldl_known {A} (step : SessionSummary → A → SessionSummary) (l : list A) s :
  (∀ a, a ∈ l → step s a = s) → foldl step s l = s.
Proof.
  induction l as [|a l IH]; intros Hstep; [done|]. simpl.
  rewrite Hstep by (by left). apply IH. intros b Hb. apply Hstep. by right.
Qed.

End summary_records.

(** X14.  After [updateSessionSummary] every created file of the response is
    in [filesCreated], every modified file in [filesModified] and every
    package in [packagesAdded]; [lastActionSummary] is the action summary of
    the response (absent when the response has none); and lists that had no
    repeated entry before have none after. *)
Theorem updateSessionSummary_records
    (current : option SessionSummary) (response : AiResponse) :
  (summaryNoDup (default emptySummary current) →
     summaryNoDup (updateSessionSummary current response))
  ∧ (∀ file, file ∈ default [] (ar_appliedFiles response) →
       (af_action file = created →
          af_path file ∈ filesCreated (updateSessionSummary current response))
       ∧ (af_action file = modified →
            af_path file ∈ filesModified (updateSessionSummary current response)))
  ∧ (∀ pkg, pkg ∈ default [] (ar_packagesToInstall response) →
       pkg ∈ packagesAdded (updateSessionSummary current response))
  ∧ lastActionSummary (updateSessionSummary current response)
    = ar_actionSummary response.
Proof.
  unfold updateSessionSummary. cbv zeta.
  set (s1 := countInteraction _ (ar_actionSummary response)).
  set (s2 := match ar_appliedFiles response with
             | Some appliedFiles => foldl recordAppliedFile s1 appliedFiles
             | None => s1
             end).
  assert (summaryGrows s2 (match ar_packagesToInstall response with
                           | Some pkgs => foldl recordPackage s2 pkgs
                           | None => s2
                           end)) as (Hgc & Hgm & _ & _).
  { destruct (ar_packagesToInstall response).
    - apply foldl_grows, recordPackage_grows.
    - apply summaryGrows_refl. }
  split_and!.
  - intros Hnd.
    assert (summaryNoDup s1) as Hs1 by exact Hnd.
    assert (summaryNoDup s2) as Hs2.
    { subst s2. destruct (ar_appliedFiles response); [|done].
      apply foldl_summaryNoDup; [apply recordAppliedFile_nodup|done]. }
    destruct (ar_packagesToInstall response); [|done].
    apply foldl_summaryNoDup; [apply recordPackage_nodup|done].
  - intros file Hfile.
    assert ((af_action file = created → af_path file ∈ filesCreated s2)
            ∧ (af_action file = modified → af_path file ∈ filesModified s2))
      as [Hc Hm].
    { subst s2. destruct (ar_appliedFiles response) as [appliedFiles|];
        [|by apply elem_of_nil in Hfile].
      by apply foldl_recordAppliedFile_member. }
    split; intros Hact; eapply prefix_elem; eauto.
  - intros pkg Hpkg.
    destruct (ar_packagesToInstall response) as [pkgs|];
      [|by apply elem_of_nil in Hpkg].
    by apply foldl_recordPackage_member.
  - assert (lastActionSummary s2 = ar_actionSummary response) as Hs2.
    { subst s2. destruct (ar_appliedFiles response); [|done].
      rewrite foldl_last; [done|apply recordAppliedFile_last]. }
    destruct (ar_packagesToInstall response); [|done].
    rewrite foldl_last; [done|apply recordPackage_last].
Qed.

(** X15.  Recording the same response a second time changes nothing but the
    count: the four lists and the last action summary stay as the first
    recording left them, and [totalInteractions] goes up by one again. *)
Theorem updateSessionSummary_replay
    (current : option SessionSummary) (response : AiResponse) :
  let once := updateSessionSummary current response in
  let twice := updateSessionSummary (Some once) response in
  filesCreated twice = filesCreated once
  ∧ filesModified twice = filesModified once
  ∧ packagesAdded twice = packagesAdded once
  ∧ componentsCreated twice = componentsCreated once
  ∧ lastActionSummary twice = lastActionSummary once
  ∧ totalInteractions twice = (totalInteractions once + 1)%Z.
Proof.
  intros once twice.
  assert (∀ file, file ∈ default [] (ar_appliedFiles response) →
            (af_action file = created → af_path file ∈ filesCreated once)
            ∧ (af_action file = modified → af_path file ∈ filesModified once))
    as Hfiles.
  { intros file Hfile.
    destruct (ar_appliedFiles response) as [appliedFiles|] eqn:Hap;
      [|by apply elem_of_nil in Hfile].
    subst once. unfold updateSessionSummary. cbv zeta. rewrite Hap.
    set (s2 := foldl recordAppliedFile _ appliedFiles).
    assert (summaryGrows s2 (match ar_packagesToInstall response with
                             | Some pkgs => foldl recordPackage s2 pkgs
                             | None => s2
                             end)) as (Hgc & Hgm & _ & _).
    { destruct (ar_packagesToInstall response).
      - apply foldl_grows, recordPackage_grows.
      - apply summaryGrows_refl. }
    destruct (foldl_recordAppliedFile_member appliedFiles
                (countInteraction (default emptySummary current)
                                  (ar_actionSummary response)) file Hfile)
      as [Hc Hm].
    split; intros Hact; eapply prefix_elem; eauto. }
  assert (∀ pkg, pkg ∈ default [] (ar_packagesToInstall response) →
                 pkg ∈ packagesAdded once) as Hpkgs.
  { intros pkg Hpkg.
    destruct (ar_packagesToInstall response) as [pkgs|] eqn:Hpk;
      [|by apply elem_of_nil in Hpkg].
    subst once. unfold updateSessionSummary. cbv zeta. rewrite Hpk.
    by apply foldl_recordPackage_member. }
  assert (lastActionSummary once = ar_actionSummary response) as Hlast.
  { subst once. unfold updateSessionSummary. cbv zeta.
    set (s2 := match ar_appliedFiles response with
               | Some appliedFiles => foldl recordAppliedFile _ appliedFiles
               | None => _
               end).
    assert (lastActionSummary s2 = ar_actionSummary response) as Hs2.
    { subst s2. destruct (ar_appliedFiles response); [|done].
      rewrite foldl_last; [done|apply recordAppliedFile_last]. }
    destruct (ar_packagesToInstall response); [|done].
    rewrite foldl_last; [done|apply recordPackage_last]. }
  assert (twice = countInteraction once (ar_actionSummary response)) as ->.
  { subst twice. unfold updateSessionSummary at 1. cbv zeta.
    set (s1 := countInteraction once (ar_actionSummary response)).
    assert (match ar_appliedFiles response with
            | Some appliedFiles => foldl recordAppliedFile s1 appliedFiles
            | None => s1
            end = s1) as ->.
    { destruct (ar_appliedFiles response) as [appliedFiles|]; [|done].
      apply foldl_known. intros file Hfile.
      destruct (Hfiles file Hfile) as [Hc Hm].
      by apply recordAppliedFile_known. }
    destruct (ar_packagesToInstall response) as [pkgs|]; [|done].
    apply foldl_known. intros pkg Hpkg. apply recordPackage_known.
    by apply Hpkgs. }
  by split_and!.
Qed.

(** ** Conversation memory: the log across calls and requests *)

Section log_window.
Implicit Types (cs : ConversationState) (u : ConversationMessage)
               (ai : option AiResponse).

Lemma sliceLast_keeps {A} (k : nat) (init tl : list A) :
  length tl ≤ k →
  sliceLast k (init ++ tl) = sliceLast (k - length tl) init ++ tl.
Proof.
  intros Hk. unfold sliceLast. rewrite length_app, drop_app_le by lia.
  f_equal. f_equal. lia.
Qed.

Lemma appendedMessages_tail now cs u ai :
  ∃ tl, appendedMessages now cs u ai = messages (context cs) ++ tl
        ∧ u ∈ tl ∧ length tl ≤ 2
        ∧ last tl = Some (match ai with
                          | Some response => aiMessageOf now response
                          | None => u
                          end).
Proof.
  unfold appendedMessages. destruct ai as [response|].
  - exists [u; aiMessageOf now response]. split_and!; [done|by left|simpl; lia|done].
  - exists [u]. split_and!; [done|by left|simpl; lia|done].
Qed.

Lemma length_logOf_update now cs u ai :
  length (logOf (updateConversationMemory now cs u ai))
  = if decide (20 < length (appendedMessages now cs u ai)) then 15
    else length (appendedMessages now cs u ai).
Proof.
  rewrite logOf_update. destruct (decide _); [|done].
  rewrite length_sliceLast. lia.
Qed.

Lemma length_appendedMessages now cs u ai :
  length (appendedMessages now cs u ai)
  = length (logOf cs) + match ai with Some _ => 2 | None => 1 end.
Proof.
  unfold appendedMessages, logOf. rewrite !length_app. by destruct ai.
Qed.

Lemma updateConversationMemory_frame now cs u ai :
  lastUpdated (updateConversationMemory now cs u ai) = now
  ∧ conversationId (updateConversationMemory now cs u ai) = conversationId cs
  ∧ startedAt (updateConversationMemory now cs u ai) = startedAt cs
  ∧ edits (context (updateConversationMemory now cs u ai)) = edits (context cs)
  ∧ currentTopic (context (updateConversationMemory now cs u ai))
    = currentTopic (context cs)
  ∧ projectEvolution (context (updateConversationMemory now cs u ai))
    = projectEvolution (context cs)
  ∧ userPreferences (context (updateConversationMemory now cs u ai))
    = userPreferences (context cs).
Proof.
  unfold updateConversationMemory. cbv zeta.
  destruct ai as [response|]; destruct (decide _); by cbn.
Qed.

End log_window.

(** X16.  [updateConversationMemory] never evicts what it has just logged:
    after the call the log is a final stretch of the appended log, it
    contains the user message of the call, and it ends with the assistant
    message of the call when there is a response and with the user message
    otherwise.  The call sets [lastUpdated] and leaves the identifier, the
    start time, the edit history, the topic, the project log and the
    preferences as they were. *)
Theorem updateConversationMemory_keeps_newest
    (now : Z) (cs : ConversationState) (u : ConversationMessage)
    (ai : option AiResponse) :
  logOf (updateConversationMemory now cs u ai)
    `suffix_of` appendedMessages now cs u ai
  ∧ u ∈ logOf (updateConversationMemory now cs u ai)
  ∧ last (logOf (updateConversationMemory now cs u ai))
    = Some (match ai with
            | Some response => aiMessageOf now response
            | None => u
            end)
  ∧ lastUpdated (updateConversationMemory now cs u ai) = now
  ∧ conversationId (updateConversationMemory now cs u ai) = conversationId cs
  ∧ startedAt (updateConversationMemory now cs u ai) = startedAt cs
  ∧ edits (context (updateConversationMemory now cs u ai)) = edits (context cs)
  ∧ currentTopic (context (updateConversationMemory now cs u ai))
    = currentTopic (context cs)
  ∧ projectEvolution (context (updateConversationMemory now cs u ai))
    = projectEvolution (context cs)
  ∧ userPreferences (context (updateConversationMemory now cs u ai))
    = userPreferences (context cs).
Proof.
  destruct (appendedMessages_tail now cs u ai) as (tl & Happ & Hu & Hlen & Hlast).
  assert (∃ kept, logOf (updateConversationMemory now cs u ai) = kept ++ tl
                  ∧ kept `suffix_of` messages (context cs)) as (kept & Hlog & Hkept).
  { rewrite logOf_update, Happ. destruct (decide _).
    - rewrite sliceLast_keeps by lia. eexists. split; [done|]. apply suffix_drop.
    - by eexists. }
  split_and!; try apply updateConversationMemory_frame.
  - rewrite Hlog, Happ. destruct Hkept as [k ->]. exists k.
    by rewrite <-(assoc_L (++)).
  - rewrite Hlog. apply elem_of_app. by right.
  - rewrite Hlog, last_app, Hlast. done.
Qed.

(** X17.  The trimming at request start has nothing left to do on a state
    that [updateConversationMemory] has just returned, and doing it twice is
    the same as doing it once. *)
Theorem trimAtRequestStart_after_update
    (now : Z) (cs : ConversationState) (u : ConversationMessage)
    (ai : option AiResponse) :
  trimAtRequestStart (updateConversationMemory now cs u ai)
  = updateConversationMemory now cs u ai
  ∧ trimAtRequestStart (trimAtRequestStart cs) = trimAtRequestStart cs.
Proof.
  assert (∀ s, length (logOf s) ≤ 20 → trimAtRequestStart s = s) as Hid.
  { intros s Hs. unfold trimAtRequestStart, logOf in *.
    rewrite decide_False; [done|lia]. }
  split.
  - apply Hid. rewrite length_logOf_update. destruct (decide _); lia.
  - apply Hid. unfold trimAtRequestStart, logOf.
    destruct (decide _); cbn -[sliceLast]; [|lia].
    rewrite length_sliceLast. lia.
Qed.

(** X18.  A call of [updateConversationMemory] leaves at least fifteen
    messages in the log, or one more than before when that is less; so over
    any run of calls a log that has reached fifteen messages never has fewer
    again, and never more than twenty after a call. *)
Theorem message_log_window (cs : ConversationState) :
  (∀ now u ai,
     15 `min` (length (logOf cs) + 1)
     ≤ length (logOf (updateConversationMemory now cs u ai)))
  ∧ (∀ calls, 15 `min` length (logOf cs) ≤ length (logOf (applyCalls cs calls)))
  ∧ (∀ calls, 15 ≤ length (logOf cs) → calls ≠ [] →
       15 ≤ length (logOf (applyCalls cs calls)) ≤ 20).
Proof.
  assert (∀ s now u ai,
            15 `min` (length (logOf s) + 1)
            ≤ length (logOf (updateConversationMemory now s u ai))
            ∧ length (logOf (updateConversationMemory now s u ai)) ≤ 20) as Hstep.
  { intros s now u ai. rewrite length_logOf_update, length_appendedMessages.
    destruct ai; cbv beta iota; destruct (decide _); lia. }
  assert (∀ calls s, 15 `min` length (logOf s)
                     ≤ length (logOf (applyCalls s calls))) as Hrun.
  { unfold applyCalls. induction calls as [|c calls IH]; intros s; cbn [foldl]; [lia|].
    etrans; [|apply IH].
    unfold applyCall.
    pose proof (Hstep s (call_now c) (call_userMessage c) (call_aiResponse c)). lia. }
  split_and!.
  - intros now u ai. apply Hstep.
  - intros calls. apply Hrun.
  - intros calls Hlen Hne. split; [pose proof (Hrun calls cs); lia|].
    destruct calls as [|c0 calls0] using rev_ind; [done|].
    rewrite applyCalls_snoc. unfold applyCall. apply Hstep.
Qed.

(** ** The history digest: when it is empty *)

Section digest_opening.

Lemma join_cons_cons (sep a b : list N) (l : list (list N)) :
  join sep (a :: b :: l) = a ++ sep ++ join sep (b :: l).
Proof. done. Qed.

Lemma untruncatedDigest_opening (host : Host) (now : Z) (cs : ConversationState) :
  ∃ rest, untruncatedDigest host now cs = digestOpening ++ rest.
Proof.
  unfold untruncatedDigest, historySections. cbv zeta. cbn [app].
  rewrite !join_cons_cons. unfold digestOpening.
  eexists. rewrite <-!(assoc_L (++)). reflexivity.
Qed.

Lemma length_digestOpening : length digestOpening = 43.
Proof. reflexivity. Qed.

End digest_opening.

(** X19.  [buildConversationHistoryPrompt] returns the empty string only when
    there is no state or the log has at most one message: with two or more
    messages the text opens with the memory heading and the session line,
    also when it has been cut.  So the first request of a process, which
    sees the fresh state, gets no digest, and a request that follows one
    completed exchange gets one. *)
Theorem buildConversationHistoryPrompt_empty_iff
    (host : Host) (now : Z) (conversationState : option ConversationState) :
  (buildConversationHistoryPrompt host now conversationState = []
   ↔ match conversationState with
     | None => True
     | Some cs => length (logOf cs) ≤ 1
     end)
  ∧ (∀ cs, conversationState = Some cs → 1 < length (logOf cs) →
       ∃ rest, buildConversationHistoryPrompt host now conversationState
               = digestOpening ++ rest)
  ∧ (∀ started later u response,
       buildConversationHistoryPrompt host now
         (Some (freshConversationState started)) = []
       ∧ buildConversationHistoryPrompt host now
           (Some (updateConversationMemory later (freshConversationState started)
                    u (Some response))) ≠ []).
Proof.
  assert (∀ cs, 1 < length (logOf cs) →
            ∃ rest, buildConversationHistoryPrompt host now (Some cs)
                    = digestOpening ++ rest) as Hopen.
  { intros cs Hlen. unfold buildConversationHistoryPrompt, logOf in *.
    rewrite decide_False by lia. cbv zeta.
    destruct (untruncatedDigest_opening host now cs) as [rest ->].
    destruct (decide _); [|by eexists].
    rewrite take_app, take_ge by (rewrite length_digestOpening; unfold digestLimit; lia).
    eexists. by rewrite <-(assoc_L (++)). }
  assert (∀ cs, 1 < length (logOf cs) →
                buildConversationHistoryPrompt host now (Some cs) ≠ []) as Hfull.
  { intros cs Hlen. destruct (Hopen cs Hlen) as [rest ->]. done. }
  split_and!.
  - destruct conversationState as [cs|]; [|done]. split.
    + intros Hempty. destruct (decide (length (logOf cs) ≤ 1)) as [?|Hmore]; [done|].
      exfalso. apply (Hfull cs); [lia|done].
    + intros Hlen. unfold buildConversationHistoryPrompt, logOf in *.
      by rewrite decide_True.
  - intros cs -> Hlen. by apply Hopen.
  - intros started later u response. split; [done|].
    apply Hfull. rewrite length_logOf_update, length_appendedMessages.
    cbv beta iota. destruct (decide _); [lia|]. unfold logOf. simpl. lia.
Qed.

(** ** Parent segments and the summary along a run *)

Section parents.
Implicit Types (parts names : list str).

Lemma foldl_applySegment_parents parts (n : nat) :
  foldl applySegment parts (replicate n (lit ".."))
  = take (length parts - n) parts.
Proof.
  revert parts. induction n as [|n IH]; intros parts.
  - simpl. rewrite take_ge; [done|lia].
  - cbn [replicate foldl]. rewrite applySegment_parent, IH.
    rewrite take_take, length_take. f_equal. lia.
Qed.

Lemma foldl_applySegment_names parts names :
  Forall (λ x, x ≠ lit ".." ∧ x ≠ lit ".") names →
  foldl applySegment parts names = parts ++ names.
Proof.
  intros Hnames. revert parts.
  induction Hnames as [|x names [Hx1 Hx2] _ IH]; intros parts; simpl.
  - by rewrite app_nil_r.
  - rewrite applySegment_name, IH by done. by rewrite <-(assoc_L (++)).
Qed.

Lemma updateSessionSummary_nodup (current : option SessionSummary)
    (response : AiResponse) :
  summaryNoDup (default emptySummary current) →
  summaryNoDup (updateSessionSummary current response).
Proof.
  intros Hnd. unfold updateSessionSummary. cbv zeta.
  set (s1 := countInteraction _ (ar_actionSummary response)).
  assert (summaryNoDup s1) as Hs1 by exact Hnd.
  set (s2 := match ar_appliedFiles response with
             | Some appliedFiles => foldl recordAppliedFile s1 appliedFiles
             | None => s1
             end).
  assert (summaryNoDup s2) as Hs2.
  { subst s2. destruct (ar_appliedFiles response); [|done].
    apply foldl_summaryNoDup; [apply recordAppliedFile_nodup|done]. }
  destruct (ar_packagesToInstall response); [|done].
  apply foldl_summaryNoDup; [apply recordPackage_nodup|done].
Qed.

Lemma summaryOf_applyCall (cs : ConversationState) (c : MemoryCall) :
  summaryOf (applyCall cs c)
  = match call_aiResponse c with
    | Some response => updateSessionSummary (sessionSummary (context cs)) response
    | None => summaryOf cs
    end.
Proof.
  unfold applyCall, updateConversationMemory, summaryOf. cbv zeta.
  destruct (call_aiResponse c); destruct (decide _); by cbn.
Qed.

End parents.

(** X20.  Leading [..] segments of a specifier climb from the directory
    they are resolved against and stop at the root: with [n] of them
    followed by ordinary names, [resolvePath] keeps the first
    [length - n] segments of the base (none when [n] is larger), then the
    names.  The result is never above the root and never an error. *)
Theorem resolvePath_parents_stop_at_root
    (base relative : list N) (n : nat) (names : list (list N)) :
  segmentsOf relative = replicate n (lit "..") ++ names →
  Forall (λ x, x ≠ lit ".." ∧ x ≠ lit ".") names →
  resolvePath base relative
  = lit "/" ++ join (lit "/")
                 (take (length (segmentsOf base) - n) (segmentsOf base) ++ names).
Proof.
  intros Hsegments Hnames. unfold resolvePath. cbv zeta.
  fold (segmentsOf base). fold (segmentsOf relative).
  rewrite Hsegments, foldl_app, foldl_applySegment_parents.
  by rewrite foldl_applySegment_names.
Qed.

Lemma resolvePath_parents_stop_at_root_witness :
  segmentsOf (lit "../../../shared/x") = replicate 3 (lit "..") ++ [lit "shared"; lit "x"]
  ∧ resolvePath (lit "/src/ui") (lit "../../../shared/x") = lit "/shared/x".
Proof.
  split; [reflexivity|].
  apply (resolvePath_parents_stop_at_root (lit "/src/ui") (lit "../../../shared/x")
           3 [lit "shared"; lit "x"]).
  - reflexivity.
  - repeat constructor; discriminate.
Defined.

(** X21.  The four lists of the session summary never get a repeated entry:
    if they have none before a run of [updateConversationMemory] calls they
    have none after it, and the state the route starts from has none. *)
Theorem session_summary_no_repeats :
  (∀ (cs : ConversationState) (calls : list MemoryCall),
     summaryNoDup (summaryOf cs) → summaryNoDup (summaryOf (applyCalls cs calls)))
  ∧ (∀ (started : Z) (calls : list MemoryCall),
       summaryNoDup (summaryOf (applyCalls (freshConversationState started) calls))).
Proof.
  assert (∀ (calls : list MemoryCall) (cs : ConversationState),
            summaryNoDup (summaryOf cs) →
            summaryNoDup (summaryOf (applyCalls cs calls))) as Hrun.
  { unfold applyCalls. induction calls as [|c calls IH]; intros cs Hcs; [done|].
    cbn [foldl]. apply IH. rewrite summaryOf_applyCall.
    destruct (call_aiResponse c) as [response|]; [|done].
    apply updateSessionSummary_nodup. unfold summaryOf in Hcs.
    by destruct (sessionSummary (context cs)). }
  split.
  - intros cs calls. apply Hrun.
  - intros started calls. apply Hrun. repeat split; constructor.
Qed.
